(** * pyElli: the Bragg-mirror validation script and the structure plotter

    A shallow embedding of
    - [examples/Bragg-mirror/validation-Bragg.py]: the analytic reflection
      coefficient (module [Bragg]) and the script around it (module
      [Script]), and
    - [src/berreman4x4/plotter.py] (module [Plotter]).

    Numbers.  Python floats and complex numbers are modelled by the real
    numbers of the Standard Library and by pairs of reals; rounding is not
    modelled.  Where the code relies on [float('inf')] (the thickness of a
    half-space) floats are modelled by [xfloat], the reals extended with the
    two infinities and NaN.

    Errors.  Python exceptions are values of [exn]; code that can raise
    lives in the monad [exc]. *)

From Stdlib Require Import Reals Lra Lia String List Arith Bool.
Import ListNotations.

(* ================================================================== *)
(** * Python exceptions                                                *)
(* ================================================================== *)

Module Py.

Inductive exn : Set :=
| NameError        (* a local variable read before it was bound *)
| IndexError       (* subscript out of range *)
| ValueError       (* unpacking or reduction of an empty sequence *)
| TypeError        (* arguments of incompatible shapes *)
| RecursionError.  (* the call stack is exhausted *)

Inductive exc (A : Type) : Type :=
| Ok (a : A)
| Raise (e : exn).
Arguments Ok {A} a.
Arguments Raise {A} e.

Definition bind {A B} (m : exc A) (f : A -> exc B) : exc B :=
  match m with
  | Ok a => f a
  | Raise e => Raise e
  end.

(** [xs[i]] for a natural index. *)
Definition getitem {A} (xs : list A) (i : nat) : exc A :=
  match nth_error xs i with
  | Some a => Ok a
  | None => Raise IndexError
  end.

(** Reading a local variable that may still be unbound. *)
Definition local {A} (v : option A) : exc A :=
  match v with
  | Some a => Ok a
  | None => Raise NameError
  end.

(** [(a, b) = list(zip( *pairs))]: the unpacking needs two tuples, and
    [zip()] of no argument yields none. *)
Definition unzip {A B} (pairs : list (A * B)) : exc (list A * list B) :=
  match pairs with
  | [] => Raise ValueError
  | _ :: _ => Ok (split pairs)
  end.

(** A function applied to the value a computation returns, if it returns. *)
Definition exc_map {A B} (f : A -> B) (m : exc A) : exc B :=
  match m with
  | Ok a => Ok (f a)
  | Raise e => Raise e
  end.

End Py.
Import Py.

Declare Scope exc_scope.
Delimit Scope exc_scope with exc.
Notation "x <- m ;; k" := (bind m (fun x => k))
(at level 61, m at next level, right associativity) : exc_scope.
Notation "' pat <- m ;; k" := (bind m (fun x => match x with pat => k end))
(at level 61, pat pattern, m at next level, right associativity) : exc_scope.

(* ================================================================== *)
(** * Complex numbers                                                  *)
(* ================================================================== *)

Module Cx.

Local Open Scope R_scope.

Definition C : Type := (R * R)%type.

Definition Re (z : C) : R := fst z.
Definition Im (z : C) : R := snd z.

Definition RtoC (x : R) : C := (x, 0).
Definition Cadd (z w : C) : C := (Re z + Re w, Im z + Im w).
Definition Csub (z w : C) : C := (Re z - Re w, Im z - Im w).
Definition Copp (z : C) : C := (- Re z, - Im z).
Definition Cmul (z w : C) : C :=
  (Re z * Re w - Im z * Im w, Re z * Im w + Im z * Re w).
Definition Cnorm2 (z : C) : R := Re z * Re z + Im z * Im z.
Definition Cdiv (z w : C) : C :=
  ((Re z * Re w + Im z * Im w) / Cnorm2 w,
   (Im z * Re w - Re z * Im w) / Cnorm2 w).
(** a real factor times a complex number *)
Definition Cscal (x : R) (z : C) : C := (x * Re z, x * Im z).
(** [z**2] *)
Definition Csqr (z : C) : C := Cmul z z.
(** [abs(z)] *)
Definition Cabs (z : C) : R := sqrt (Cnorm2 z).
(** [exp(z)] *)
Definition Cexp (z : C) : C := (exp (Re z) * cos (Im z), exp (Re z) * sin (Im z)).
(** The principal square root: real part non-negative, and imaginary part
    non-negative on the negative real axis. *)
Definition Csqrt (z : C) : C :=
  let m := Cabs z in
  (sqrt ((m + Re z) / 2),
   if Rlt_dec (Im z) 0 then - sqrt ((m - Re z) / 2) else sqrt ((m - Re z) / 2)).

(** A number in the range of [Csqrt]. *)
Definition principal (z : C) : Prop := 0 < Re z \/ (Re z = 0 /\ 0 <= Im z).

End Cx.
Import Cx.

(* ================================================================== *)
(** * Arrays                                                           *)
(* ================================================================== *)

Module Np.

Local Open Scope R_scope.

(** One row of a two-dimensional complex array: a value per wavelength. *)
Definition row : Type := list C.

(** Element-wise combination of two arrays of one shape. *)
Fixpoint map2 {A B D} (f : A -> B -> D) (xs : list A) (ys : list B) : list D :=
  match xs, ys with
  | x :: xs', y :: ys' => f x y :: map2 f xs' ys'
  | _, _ => []
  end.

Definition row_add : row -> row -> row := map2 Cadd.
Definition row_sub : row -> row -> row := map2 Csub.
Definition row_mul : row -> row -> row := map2 Cmul.
Definition row_div : row -> row -> row := map2 Cdiv.
Definition row_opp : row -> row := map Copp.
Definition row_exp : row -> row := map Cexp.
(** a complex scalar times a row *)
Definition row_cmul (c : C) : row -> row := map (Cmul c).
(** a row times a real scalar *)
Definition row_rmul (r : row) (x : R) : row := map (Cscal x) r.
(** a real scalar plus a row *)
Definition row_radd (x : R) : row -> row := map (Cadd (RtoC x)).

(** [a[1:]] and [a[:-1]] *)
Definition from1 {A} (a : list A) : list A := tl a.
Definition upto_last {A} (a : list A) : list A := removelast a.

(** [np.diff(a, axis=0)]: row [i] is [a[i+1] - a[i]]. *)
Definition diff0 (a : list row) : list row := map2 row_sub (from1 a) (upto_last a).

(** [np.linspace(a, b, num)] *)
Definition linspace (a b : R) (num : nat) : list R :=
  map (fun i => a + INR i * ((b - a) / INR (num - 1))) (seq 0 num).

(** [a[start::2] = v] *)
Fixpoint set_every_other {A} (start : nat) (v : A) (a : list A) : list A :=
  match a with
  | [] => []
  | x :: a' =>
      match start with
      | 0 => v :: set_every_other 1 v a'
      | S s => x :: set_every_other s v a'
      end
  end.

(** [a[i] = v], [i] in range *)
Fixpoint set_at {A} (i : nat) (v : A) (a : list A) : list A :=
  match a, i with
  | [], _ => []
  | _ :: a', 0 => v :: a'
  | x :: a', S j => x :: set_at j v a'
  end.

(** [a[p][j]] *)
Definition entry {A} (a : list (list A)) (p j : nat) : option A :=
  match nth_error a p with
  | Some r => nth_error r j
  | None => None
  end.

(** Every row of the array [a] has [w] entries. *)
Definition wide (w : nat) (a : list row) : Prop :=
  forall p r, nth_error a p = Some r -> length r = w.

End Np.
Import Np.

(* ================================================================== *)
(** * The validation script: analytic reflection coefficient           *)
(* ================================================================== *)

Module Bragg.

Local Open Scope R_scope.
Local Open Scope exc_scope.

Section Analytic.

(** The globals of the script that [ReflectionCoeff] reads. *)
Variable N : nat.               (* number of interfaces *)
Variable n : list C.            (* indices, one per medium; shape (len, 1) *)
Variable d : list R.            (* thicknesses, one per medium *)
Variable lbda_list : list R.    (* the wavelength sweep *)

(** [kz = 2*pi/lbda_list * np.sqrt(n**2-(Kx)**2)]: a row per medium, a
    column per wavelength. *)
Definition wavevector (Kx : C) : list row :=
  let root := map (fun n_p => Csqrt (Csub (Csqr n_p) (Csqr Kx))) n in
  map (fun s => map (fun l => Cscal (2 * PI / l) s) lbda_list) root.

(** A two-dimensional array times a column: row [i] times the scalar [c[i]]. *)
Definition times_column (a : list row) (c : list C) : list row :=
  map2 (fun r x => map (fun y => Cmul y x) r) a c.

(** The [if]/[elif] on [polarisation] that binds [r_ab]; [None] when neither
    branch runs and the name stays unbound. *)
Definition single_interface (polarisation : string) (kz : list row)
  : option (list row) :=
  if (polarisation =? "s")%string then
    Some (map2 row_div (map row_opp (diff0 kz))
                       (map2 row_add (upto_last kz) (from1 kz)))
  else if (polarisation =? "p")%string then
    Some (map2 row_div
            (map2 row_sub (times_column (upto_last kz) (map Csqr (from1 n)))
                          (times_column (from1 kz) (map Csqr (upto_last n))))
            (map2 row_add (times_column (upto_last kz) (map Csqr (from1 n)))
                          (times_column (from1 kz) (map Csqr (upto_last n)))))
  else None.

Section Recursion.

Variable r_ab : option (list row).
Variable kz : list row.

(** [np.exp(2j*kz[p]*d[p])] *)
Definition phase (kz_p : row) (d_p : R) : row :=
  row_exp (row_rmul (row_cmul (0, 2) kz_p) d_p).

(** The local function [U].  [stack] bounds the depth of nested calls; the
    operands are evaluated in Python's order, numerator first, and [U(p)] is
    called once in the numerator and once in the denominator. *)
Fixpoint U (stack : nat) (k : nat) : exc row :=
  match stack with
  | O => Raise RecursionError
  | S stack' =>
      let p := (k + 1)%nat in
      if (p =? N)%nat then
        r <- local r_ab ;;
        getitem r (N - 1)
      else
        r <- local r_ab ;;
        a <- getitem r (p - 1) ;;
        u <- U stack' p ;;
        kz_p <- getitem kz p ;;
        d_p <- getitem d p ;;
        r' <- local r_ab ;;
        a' <- getitem r' (p - 1) ;;
        u' <- U stack' p ;;
        kz_p' <- getitem kz p ;;
        d_p' <- getitem d p ;;
        Ok (row_div (row_add a (row_mul u (phase kz_p d_p)))
                    (row_radd 1 (row_mul (row_mul a' u') (phase kz_p' d_p'))))
  end.

(** [U] with a counter: the second component is the number of calls of [U]
    that the evaluation of [U(k)] makes, itself included, up to the
    exception if one is raised.  A call that the exhausted stack refuses is
    not counted. *)
Fixpoint U_calls (stack : nat) (k : nat) : exc row * nat :=
  match stack with
  | O => (Raise RecursionError, 0%nat)
  | S stack' =>
      let p := (k + 1)%nat in
      if (p =? N)%nat then
        (r <- local r_ab ;; getitem r (N - 1), 1%nat)
      else
        match (r <- local r_ab ;; getitem r (p - 1)) with
        | Raise e => (Raise e, 1%nat)
        | Ok a =>
            let (first, c1) := U_calls stack' p in
            match (u <- first ;;
                   kz_p <- getitem kz p ;;
                   d_p <- getitem d p ;;
                   r' <- local r_ab ;;
                   a' <- getitem r' (p - 1) ;;
                   Ok (u, kz_p, d_p, a')) with
            | Raise e => (Raise e, (1 + c1)%nat)
            | Ok (u, kz_p, d_p, a') =>
                let (second, c2) := U_calls stack' p in
                (u' <- second ;;
                 kz_p' <- getitem kz p ;;
                 d_p' <- getitem d p ;;
                 Ok (row_div (row_add a (row_mul u (phase kz_p d_p)))
                             (row_radd 1 (row_mul (row_mul a' u') (phase kz_p' d_p')))),
                 (1 + c1 + c2)%nat)
            end
        end
  end.

End Recursion.

(** [U(k)] for a bound [r_ab], on a stack that its recursion cannot exhaust
    (lemma [U_stack_suffices]). *)
Definition U_at (r_ab : list row) (kz : list row) (k : nat) : exc row :=
  U (Some r_ab) kz (S (length r_ab)) k.

(** The right-hand side of the recursive branch of [U], from the values of
    [r_ab[p-1]], [U(p)], [kz[p]] and [d[p]]. *)
Definition airy (a u kz_p : row) (d_p : R) : row :=
  row_div (row_add a (row_mul u (phase kz_p d_p)))
          (row_radd 1 (row_mul (row_mul a u) (phase kz_p d_p))).

(** [ReflectionCoeff(incidence_angle=0., polarisation='s')].  The recursion
    never nests deeper than the number of rows of [r_ab] plus one (lemma
    [U_stack_suffices]), so the stack given to [U] here is never exhausted. *)
Definition ReflectionCoeff (incidence_angle : R) (polarisation : string)
  : exc row :=
  n_0 <- getitem n 0 ;;
  let Kx := Cscal (sin incidence_angle) n_0 in
  let sinPhi := map (Cdiv Kx) n in
  let kz := wavevector Kx in
  let r_ab := single_interface polarisation kz in
  U r_ab kz (S (length n)) 0.

(** [(np.abs(ReflectionCoeff(...)))**2] *)
Definition power (amplitude : exc row) : exc (list R) :=
  a <- amplitude ;; Ok (map (fun z => Cabs z ^ 2) a).

End Analytic.

End Bragg.

(* ================================================================== *)
(** * Floats with infinities                                           *)
(* ================================================================== *)

Module Xf.

Local Open Scope R_scope.

Inductive xfloat : Type :=
| Fin (x : R)
| PInf              (* float('inf') *)
| NInf
| NaN.

(** The infinity of the sign of [x], or of the opposite sign; NaN at 0. *)
Definition inf_signed (x : R) (same : bool) : xfloat :=
  if Rlt_dec 0 x then (if same then PInf else NInf)
  else if Rlt_dec x 0 then (if same then NInf else PInf)
  else NaN.

Definition xadd (a b : xfloat) : xfloat :=
  match a, b with
  | NaN, _ | _, NaN => NaN
  | Fin x, Fin y => Fin (x + y)
  | PInf, NInf | NInf, PInf => NaN
  | PInf, _ | _, PInf => PInf
  | NInf, _ | _, NInf => NInf
  end.

Definition xopp (a : xfloat) : xfloat :=
  match a with
  | Fin x => Fin (- x)
  | PInf => NInf
  | NInf => PInf
  | NaN => NaN
  end.

Definition xmul (a b : xfloat) : xfloat :=
  match a, b with
  | NaN, _ | _, NaN => NaN
  | Fin x, Fin y => Fin (x * y)
  | Fin x, PInf | PInf, Fin x => inf_signed x true
  | Fin x, NInf | NInf, Fin x => inf_signed x false
  | PInf, PInf | NInf, NInf => PInf
  | PInf, NInf | NInf, PInf => NInf
  end.

(** [a != 0.] *)
Definition xne0 (a : xfloat) : bool :=
  match a with
  | Fin x => if Req_dec_T x 0 then false else true
  | _ => true
  end.

Definition xmin (a b : xfloat) : xfloat :=
  match a, b with
  | NaN, _ | _, NaN => NaN
  | NInf, _ | _, NInf => NInf
  | PInf, c | c, PInf => c
  | Fin x, Fin y => Fin (Rmin x y)
  end.

Definition xmax (a b : xfloat) : xfloat :=
  match a, b with
  | NaN, _ | _, NaN => NaN
  | PInf, _ | _, PInf => PInf
  | NInf, c | c, NInf => c
  | Fin x, Fin y => Fin (Rmax x y)
  end.

(** [a.min()] and [a.max()]; numpy refuses an empty array. *)
Definition amin (a : list xfloat) : exc xfloat :=
  match a with
  | [] => Raise ValueError
  | x :: a' => Ok (fold_left xmin a' x)
  end.

Definition amax (a : list xfloat) : exc xfloat :=
  match a with
  | [] => Raise ValueError
  | x :: a' => Ok (fold_left xmax a' x)
  end.

(** [np.cumsum(h)] *)
Fixpoint cumsum_from (acc : xfloat) (h : list xfloat) : list xfloat :=
  match h with
  | [] => []
  | x :: h' => xadd acc x :: cumsum_from (xadd acc x) h'
  end.

Definition cumsum (h : list xfloat) : list xfloat :=
  match h with
  | [] => []
  | x :: h' => x :: cumsum_from x h'
  end.

End Xf.
Import Xf.

(* ================================================================== *)
(** * The structure plotter                                            *)
(* ================================================================== *)

Module Plotter.

Local Open Scope R_scope.
Local Open Scope exc_scope.

(** ** What the plotter uses of the solver *)

(** Modelled from the spec: the solver's vectors and permittivity tensors
    are arrays of numpy; a 3-vector is three complex numbers. *)
Definition vec3 : Type := (C * C * C)%type.

(** Modelled from the spec: a 3x3 permittivity tensor at one wavelength, as
    its three rows. *)
Definition tensor : Type := (vec3 * vec3 * vec3)%type.

Definition vget (v : vec3) (i : nat) : C :=
  match v, i with
  | (a, _, _), 0%nat => a
  | (_, b, _), 1%nat => b
  | (_, _, c), _ => c
  end.

Definition tget (eps : tensor) (i j : nat) : C :=
  match eps, i with
  | (r, _, _), 0%nat => vget r j
  | (_, r, _), 1%nat => vget r j
  | (_, _, r), _ => vget r j
  end.

(** Modelled from the spec: the classes of the solver (materials, layers,
    structures) are not among the sources.  A material gives its permittivity
    tensor at a wavelength and unit. *)
Record Material : Type := { getTensor : R -> string -> tensor }.

(** Modelled from the spec: a half-space is a semi-infinite medium of one
    material. *)
Record HalfSpace : Type := { material : Material }.

(** Modelled from the spec: a layer or a group of repeated layers gives its
    own permittivity profile, the pairs of a thickness and a tensor that it
    expands to. *)
Record LayerLike : Type :=
  { layer_getPermittivityProfile : R -> string -> list (xfloat * tensor) }.

(** Modelled from the spec: a structure has a front half-space, an ordered
    sequence of layers or groups of layers, and a back half-space. *)
Record Structure : Type :=
  { frontHalfSpace : HalfSpace;
    layers : list LayerLike;
    backHalfSpace : HalfSpace }.

(** Modelled from the spec: an isotropic material has the tensor "scalar
    times identity", the scalar being the square of its index. *)
Definition scalar_tensor (eps : C) : tensor :=
  ((eps, RtoC 0, RtoC 0), (RtoC 0, eps, RtoC 0), (RtoC 0, RtoC 0, eps)).

(** Modelled from the spec: the isotropic material of a constant index. *)
Definition IsotropicMaterial (index : C) : Material :=
  {| getTensor := fun _ _ => scalar_tensor (Csqr index) |}.

(** Modelled from the spec: a layer pairs a material with a thickness, and
    its profile is that one entry. *)
Definition Layer (m : Material) (thickness : R) : LayerLike :=
  {| layer_getPermittivityProfile :=
       fun lbda unit => [(Fin thickness, getTensor m lbda unit)] |}.

(** Modelled from the spec: [e_x] is declared in [berreman4x4/math.py], which
    is not among the sources; it is the unit vector of the first Cartesian
    axis. *)
Definition e_x : vec3 := (RtoC 1, RtoC 0, RtoC 0).

(** Modelled from the spec: what [*] does in [v.T * eps * v] depends on the
    array type of [v], declared with [e_x].  Read as a matrix product it is
    the quadratic form the spec describes; read element by element with
    numpy's broadcasting, the entry [0, 0, 0] is [v[0]*eps[0][0]*v[0]]. *)
Inductive product : Set := MatrixProduct | Broadcast.

Definition dot3 (u v : vec3) : C :=
  Cadd (Cadd (Cmul (vget u 0) (vget v 0)) (Cmul (vget u 1) (vget v 1)))
       (Cmul (vget u 2) (vget v 2)).

(** [(v.T * eps * v)[0, 0, 0]] *)
Definition project (star : product) (v : vec3) (eps : tensor) : C :=
  match star with
  | MatrixProduct =>
      let vT_eps : vec3 :=
        (dot3 v (tget eps 0 0, tget eps 1 0, tget eps 2 0),
         dot3 v (tget eps 0 1, tget eps 1 1, tget eps 2 1),
         dot3 v (tget eps 0 2, tget eps 1 2, tget eps 2 2)) in
      dot3 vT_eps v
  | Broadcast => Cmul (Cmul (vget v 0) (tget eps 0 0)) (vget v 0)
  end.

(** ** plotter.py *)

(** [sum(lists, start)] *)
Definition py_sum {A} (lists : list (list A)) (start : list A) : list A :=
  fold_left (@app A) lists start.

Definition getPermittivityProfile (structure : Structure) (lbda : R) (unit : string)
  : list (xfloat * tensor) :=
  let layers :=
    py_sum (map (fun L => layer_getPermittivityProfile L lbda unit)
                (layers structure)) [] in
  let front := (PInf, getTensor (material (frontHalfSpace structure)) lbda unit) in
  let back := (PInf, getTensor (material (backHalfSpace structure)) lbda unit) in
  py_sum [[front]; layers; [back]] [].

Section Product.

Variable star : product.

Definition getIndexProfile (structure : Structure) (lbda : R) (unit : string)
  (v : vec3) : exc (list (xfloat * C)) :=
  let profile := getPermittivityProfile structure lbda unit in
  ' (h, epsilon) <- unzip profile ;;
  let n := map (fun eps => Csqrt (project star v eps)) epsilon in
  Ok (combine h n).

(** What is kept of a matplotlib [Axes]: the data drawn, the range of the
    depth axis and the labels. *)
Inductive drawing : Type :=
| Step (z : list xfloat) (level : list R)            (* ax.step, where='post' *)
| ColorMesh (z : list xfloat) (shade : list R).      (* ax.pcolormesh *)

(** The abscissas handed to matplotlib. *)
Definition abscissas (dr : drawing) : list xfloat :=
  match dr with
  | Step z _ => z
  | ColorMesh z _ => z
  end.

Record Axes : Type :=
  { drawn : drawing;
    xlim : xfloat * xfloat;
    ylim_bottom : option R;
    xlabel : string;
    ylabel : option string }.

(** ["z ({})".format(unit)] *)
Definition z_label (unit : string) : string := ("z (" ++ unit ++ ")")%string.

Definition _drawStructureGraph (structure : Structure) (z : list xfloat)
  (n : list C) (unit : string) : exc Axes :=
  n_last <- getitem n (length n - 1) ;;
  let n := n ++ [n_last] in
  (* ax.step wants as many levels as abscissas *)
  if (length z =? length n)%nat then
    lo <- amin z ;;
    hi <- amax z ;;
    Ok {| drawn := Step z (map Re n);
          xlim := (lo, hi);
          ylim_bottom := Some 1;
          xlabel := z_label unit;
          ylabel := Some "n'"%string |}
  else Raise ValueError.

Definition _drawStructureSection (structure : Structure) (z : list xfloat)
  (n : list C) (unit : string) : exc Axes :=
  lo <- amin z ;;
  hi <- amax z ;;
  (* ax.pcolormesh wants one cell between two abscissas *)
  if (length z =? S (length n))%nat then
    Ok {| drawn := ColorMesh z (map Re n);
          xlim := (lo, hi);
          ylim_bottom := None;
          xlabel := z_label unit;
          ylabel := None |}
  else Raise TypeError.

(** The depth coordinates [z] that [drawStructure] builds from the
    thicknesses [h] of the index profile. *)
Definition depth_axis (h : list xfloat) (margin : xfloat) : list xfloat :=
  let z_layers := Fin 0 :: cumsum (upto_last (from1 h)) in
  let z_max := last z_layers (Fin 0) in
  let z_margin := if xne0 z_max then xmul margin z_max else Fin 1e-6 in
  (xopp z_margin :: z_layers) ++ [xadd z_max z_margin].

(** [drawStructure(structure, lbda=1000, unit='nm', method="graph",
    margin=0.15)]; the result [None] is Python's [None]. *)
Definition drawStructure (structure : Structure) (lbda : R) (unit : string)
  (method : string) (margin : xfloat) : exc (option Axes) :=
  profile <- getIndexProfile structure lbda unit e_x ;;
  ' (h, n) <- unzip profile ;;
  let z := depth_axis h margin in
  if (method =? "graph")%string then
    ax <- _drawStructureGraph structure z n unit ;; Ok (Some ax)
  else if (method =? "section")%string then
    ax <- _drawStructureSection structure z n unit ;; Ok (Some ax)
  else Ok None.

(** The default of [margin]. *)
Definition default_margin : xfloat := Fin 0.15.

(** The profiles of the layers of a structure, layer by layer; their entries
    are the finite layers. *)
Definition per_layer (structure : Structure) (lbda : R) (unit : string)
  : list (list (xfloat * tensor)) :=
  map (fun L => layer_getPermittivityProfile L lbda unit) (layers structure).

(** The arrays [h] and [n] that [drawStructure] unpacks (lemma
    [drawStructure_eq]). *)
Definition thicknesses (structure : Structure) (lbda : R) (unit : string)
  : list xfloat :=
  PInf :: map fst (concat (per_layer structure lbda unit)) ++ [PInf].

Definition indices (structure : Structure) (lbda : R) (unit : string) : list C :=
  map (fun hv => Csqrt (project star e_x (snd hv)))
      (getPermittivityProfile structure lbda unit).

(** "The entry [i] of the profile is that of an isotropic material of index
    [index], and the index profile along [e_x] gives that entry the value
    [index]." *)
Definition isotropic_entry_gets_index (structure : Structure) (lbda : R)
  (unit : string) (i : nat) (index : C) : Prop :=
  forall h,
    nth_error (getPermittivityProfile structure lbda unit) i
      = Some (h, scalar_tensor (Csqr index)) ->
    exists profile,
      getIndexProfile structure lbda unit e_x = Ok profile /\
      nth_error profile i = Some (h, index).

End Product.

(** The total depth of a stack of layers of the thicknesses [ds]. *)
Definition total_depth (ds : list R) : R := fold_right Rplus 0 ds.

(** Two half-spaces of one isotropic material and no layer between them. *)
Definition bare (index : C) : Structure :=
  {| frontHalfSpace := {| material := IsotropicMaterial index |};
     layers := [];
     backHalfSpace := {| material := IsotropicMaterial index |} |}.

(** One layer between two half-spaces. *)
Definition coated (front : C) (index : C) (thickness : R) (back : C) : Structure :=
  {| frontHalfSpace := {| material := IsotropicMaterial front |};
     layers := [Layer (IsotropicMaterial index) thickness];
     backHalfSpace := {| material := IsotropicMaterial back |} |}.

End Plotter.

(* ================================================================== *)
(** * The validation script: structure, sweep and comparison chart     *)
(* ================================================================== *)

Module Script.

Local Open Scope R_scope.
Local Open Scope exc_scope.

(** ** Materials, layers and the sweep *)

Definition n_a : C := RtoC 1.0.
Definition n_g : C := RtoC 1.5.
Definition lbda0 : R := 1550.
Definition n_SiO2 : C := RtoC 1.47.
Definition n_TiO2 : C := (2.23, 5.2e-4).

(** Modelled from the spec: [bm.get_QWP_thickness] belongs to the solver,
    which is not among the sources; the thickness of a quarter-wave layer is
    the reference wavelength over four times the real part of the index. *)
Definition get_QWP_thickness (index : C) (lbda : R) : R := lbda / (4 * Re index).

Definition d_SiO2 : R := get_QWP_thickness n_SiO2 lbda0.
Definition d_TiO2 : R := get_QWP_thickness n_TiO2 lbda0.

(** Modelled from the spec: [Layerstack.n], the period count of the group
    [RepeatedLayers([L_TiO2, L_SiO2], 4, 0, 0)] of the solver. *)
Definition periods : nat := 4.

(** [N = 2 * Layerstack.n + 1] *)
Definition N : nat := 2 * periods + 1.

(** [n = np.ones(N+1, dtype=complex)] and the four assignments to it *)
Definition n : list C :=
  set_at N n_g
    (set_every_other 2 n_SiO2
       (set_every_other 1 n_TiO2
          (set_at 0 n_a (repeat (RtoC 1) (N + 1))))).

(** [d = np.ones(N+1)] and the two assignments to it *)
Definition d : list R :=
  set_every_other 2 d_SiO2 (set_every_other 1 d_TiO2 (repeat 1 (N + 1))).

Definition lbda_list : list R := linspace 1100 2500 200.

(** The same lines for a group of [p] periods, [Layerstack.n = p]: the
    number of interfaces and the two arrays. *)
Definition interfaces (p : nat) : nat := 2 * p + 1.

Definition index_array (p : nat) : list C :=
  set_at (interfaces p) n_g
    (set_every_other 2 n_SiO2
       (set_every_other 1 n_TiO2
          (set_at 0 n_a (repeat (RtoC 1) (interfaces p + 1))))).

Definition thickness_array (p : nat) : list R :=
  set_every_other 2 d_SiO2
    (set_every_other 1 d_TiO2 (repeat 1 (interfaces p + 1))).

(** ** The chart *)

Inductive linestyle : Set := Solid | NoLine.
Inductive marker : Set := NoMarker | Cross.

Record Line2D : Type :=
  { xdata : list R;
    ydata : list R;
    line : linestyle;
    mark : marker }.

(** The format argument of [ax.plot], as far as the script uses it: left
    out, or ['x']. *)
Inductive fmt : Set := fmt_default | fmt_x.

(** [ax.plot(x, Y, fmt)] for a two-dimensional [Y]: one line per column of
    [Y], given here as the list of its columns.  Without a format the line
    is solid and carries no marker; the format ['x'] names a marker and no
    line style, which draws the markers alone. *)
Definition plot (x : list R) (columns : list (list R)) (f : fmt) : list Line2D :=
  map (fun y =>
         match f with
         | fmt_default => {| xdata := x; ydata := y; line := Solid; mark := NoMarker |}
         | fmt_x => {| xdata := x; ydata := y; line := NoLine; mark := Cross |}
         end) columns.

Record Chart : Type :=
  { lines : list Line2D;
    legend : list (Line2D * string) }.

Definition legend1 : list string :=
  ["R_ss (0$^\circ$)"; "R_ss (45$^\circ$)"; "R_pp (45$^\circ$)"]%string.
Definition legend2 : list string :=
  ["R_th_ss (0$^\circ$)"; "R_th_ss (45$^\circ$)"; "R_th_pp (45$^\circ$)"]%string.

Section Chart.

(** The globals read by [ReflectionCoeff], and the reflectances read off the
    solver's results [data.R[:, 1, 1]], [data2.R[:, 1, 1]], [data2.R[:, 0, 0]]. *)
Variable N : nat.
Variable n : list C.
Variable d : list R.
Variable lbda_list : list R.
Variables R_ss_0 R_ss R_pp : list R.

(** The script from the analytic calculation to the legend of the chart.
    [np.vstack((a, b, c)).T] has the columns [a], [b], [c]. *)
Definition comparison_chart : exc Chart :=
  R_th_ss_0 <- Bragg.power (Bragg.ReflectionCoeff N n d lbda_list 0 "s") ;;
  R_th_ss <- Bragg.power (Bragg.ReflectionCoeff N n d lbda_list (PI / 4) "s") ;;
  R_th_pp <- Bragg.power (Bragg.ReflectionCoeff N n d lbda_list (PI / 4) "p") ;;
  let lines1 := plot lbda_list [R_ss_0; R_ss; R_pp] fmt_default in
  let lines2 := plot lbda_list [R_th_ss_0; R_th_ss; R_th_pp] fmt_x in
  Ok {| lines := lines1 ++ lines2;
        legend := combine (lines1 ++ lines2) (legend1 ++ legend2) |}.

End Chart.

(** The script on its own arrays; only the solver's results are left open. *)
Definition script_chart (R_ss_0 R_ss R_pp : list R) : exc Chart :=
  comparison_chart N n d lbda_list R_ss_0 R_ss R_pp.

(** A curve drawn as a line plot, and one drawn as marker points. *)
Definition line_plot (l : Line2D) : Prop := line l = Solid /\ mark l = NoMarker.
Definition marker_points (l : Line2D) : Prop := line l = NoLine /\ mark l <> NoMarker.

(** "The curves that the legend of [c] names [labels] are drawn as [style]." *)
Definition drawn_as (c : Chart) (labels : list string) (style : Line2D -> Prop)
  : Prop :=
  forall label, In label labels ->
    exists l, In (l, label) (legend c) /\ style l.

(** "Every curve of [c] is drawn against [x]." *)
Definition versus (c : Chart) (x : list R) : Prop :=
  forall l, In l (lines c) -> xdata l = x.

End Script.

(* ================================================================== *)
(** * Facts about lists and arrays                                     *)
(* ================================================================== *)

Section ArrayFacts.

Context {A B D : Type}.

Lemma nth_error_map2 (f : A -> B -> D) xs ys i :
  nth_error (map2 f xs ys) i =
  match nth_error xs i, nth_error ys i with
  | Some x, Some y => Some (f x y)
  | _, _ => None
  end.
Proof.
  revert ys i; induction xs as [|x xs IH]; intros [|y ys] [|i]; simpl; auto.
  - destruct (nth_error xs i); reflexivity.
Qed.

Lemma length_map2 (f : A -> B -> D) xs ys :
  length (map2 f xs ys) = Nat.min (length xs) (length ys).
Proof.
  revert ys; induction xs as [|x xs IH]; intros [|y ys]; simpl; auto.
Qed.

Lemma map2_map (f : A -> B -> D) {X} (g : X -> A) (h : X -> B) l :
  map2 f (map g l) (map h l) = map (fun x => f (g x) (h x)) l.
Proof. induction l; simpl; congruence. Qed.

Lemma length_upto_last (a : list A) : length (upto_last a) = (length a - 1)%nat.
Proof.
  unfold upto_last; induction a as [|x [|y a] IH]; simpl in *; auto.
  rewrite IH; lia.
Qed.

Lemma length_from1 (a : list A) : length (from1 a) = (length a - 1)%nat.
Proof. destruct a; simpl; lia. Qed.

Lemma nth_error_from1 (a : list A) i : nth_error (from1 a) i = nth_error a (S i).
Proof. destruct a; simpl; auto. destruct i; reflexivity. Qed.

Lemma nth_error_upto_last (a : list A) i :
  (S i < length a)%nat -> nth_error (upto_last a) i = nth_error a i.
Proof.
  unfold upto_last; revert i; induction a as [|x [|y a] IH]; intros i Hi; simpl in *.
  - lia.
  - lia.
  - destruct i; [reflexivity|]. simpl. apply IH. lia.
Qed.

Lemma getitem_ok (a : list A) i :
  (i < length a)%nat -> exists x, getitem a i = Ok x /\ nth_error a i = Some x.
Proof.
  intros Hi. unfold getitem.
  destruct (nth_error a i) eqn:E; [eauto|].
  apply nth_error_None in E. lia.
Qed.

Lemma getitem_out (a : list A) i :
  (length a <= i)%nat -> getitem a i = Raise IndexError.
Proof.
  intros Hi. unfold getitem.
  apply nth_error_None in Hi. now rewrite Hi.
Qed.

End ArrayFacts.

(* ================================================================== *)
(** * The model on small inputs                                        *)
(* ================================================================== *)

Section Checks.

Local Open Scope R_scope.

(** The index array of the script: air, four pairs TiO2/SiO2, and glass in
    place of the last entry. *)
Example script_n :
  Script.n =
  [Script.n_a; Script.n_TiO2; Script.n_SiO2; Script.n_TiO2; Script.n_SiO2;
   Script.n_TiO2; Script.n_SiO2; Script.n_TiO2; Script.n_SiO2; Script.n_g].
Proof. reflexivity. Qed.

Example script_d :
  Script.d =
  [1; Script.d_TiO2; Script.d_SiO2; Script.d_TiO2; Script.d_SiO2;
   Script.d_TiO2; Script.d_SiO2; Script.d_TiO2; Script.d_SiO2; Script.d_TiO2].
Proof. reflexivity. Qed.

Example script_sweep : length Script.lbda_list = 200%nat.
Proof. reflexivity. Qed.

Example diff0_rows (a b c : C) :
  diff0 [[a]; [b]; [c]] = [[Csub b a]; [Csub c b]].
Proof. reflexivity. Qed.

Example cumsum_three :
  cumsum [Fin 1; Fin 2; Fin 3] = [Fin 1; Fin (1 + 2); Fin (1 + 2 + 3)].
Proof. reflexivity. Qed.

(** Two interfaces: [U(0)] composes the first interface with [U(1)], the
    coefficient of the second. *)
Example U_two_interfaces (a b k0 k1 k2 : row) (d0 d1 d2 : R) :
  Bragg.U 2 [d0; d1; d2] (Some [a; b]) [k0; k1; k2] 2 0 =
  Ok (Bragg.airy a b k1 d1).
Proof. reflexivity. Qed.

(** The same call with [N] larger than the arrays runs off [r_ab]. *)
Example U_past_the_end (a b k0 k1 k2 : row) (d0 d1 d2 : R) :
  Bragg.U 5 [d0; d1; d2] (Some [a; b]) [k0; k1; k2] 4 0 = Raise IndexError.
Proof. reflexivity. Qed.

Example depth_axis_two_layers :
  Plotter.depth_axis [PInf; Fin 100; Fin 50; PInf] Plotter.default_margin =
  [Fin (- (0.15 * (100 + 50))); Fin 0; Fin 100; Fin (100 + 50);
   Fin (100 + 50 + 0.15 * (100 + 50))].
Proof.
  unfold Plotter.depth_axis, Plotter.default_margin. simpl.
  destruct (Req_dec_T (100 + 50) 0) as [E|_]; [lra|reflexivity].
Qed.

End Checks.

(* ================================================================== *)
(** * The analytic reflection coefficient                              *)
(* ================================================================== *)

Section AnalyticFacts.

Import Bragg.
Local Open Scope exc_scope.

Variable N : nat.
Variable n : list C.
Variable d : list R.
Variable lbda_list : list R.

Local Abbreviation U := (Bragg.U N d).
Local Abbreviation U_at := (Bragg.U_at N d).
Local Abbreviation wavevector := (Bragg.wavevector n lbda_list).
Local Abbreviation single_interface := (Bragg.single_interface n).
Local Abbreviation ReflectionCoeff := (Bragg.ReflectionCoeff N n d lbda_list).

Lemma U_unbound kz stack k : U None kz (S stack) k = Raise NameError.
Proof. simpl. destruct (k + 1 =? N)%nat; reflexivity. Qed.

Lemma U_base r kz stack k :
  S k = N -> U (Some r) kz (S stack) k = getitem r (N - 1).
Proof.
  intros H. simpl. replace (k + 1)%nat with N by lia.
  rewrite Nat.eqb_refl. reflexivity.
Qed.

(** The two calls [U(p)] return the same row, and so do the two readings of
    each array: the recursive branch is one composition. *)
Lemma U_step r kz stack k :
  S k <> N ->
  U (Some r) kz (S stack) k =
  (a <- getitem r k ;;
   u <- U (Some r) kz stack (S k) ;;
   kz_p <- getitem kz (S k) ;;
   d_p <- getitem d (S k) ;;
   Ok (airy a u kz_p d_p)).
Proof.
  intros H. simpl.
  replace (k + 1)%nat with (S k) by lia.
  destruct (Nat.eqb_spec (S k) N) as [E|_]; [contradiction|].
  simpl. rewrite Nat.sub_0_r.
  destruct (getitem r k); simpl; [|reflexivity].
  destruct (U (Some r) kz stack (S k)); simpl; [|reflexivity].
  destruct (getitem kz (S k)); simpl; [|reflexivity].
  destruct (getitem d (S k)); reflexivity.
Qed.

(** The depth of the recursion is bounded by the rows of [r_ab]: any two
    stacks that leave room for them give the same result. *)
Lemma U_stack_irrelevant r kz s1 s2 k :
  (0 < s1)%nat -> (0 < s2)%nat ->
  (length r < s1 + k)%nat -> (length r < s2 + k)%nat ->
  U (Some r) kz s1 k = U (Some r) kz s2 k.
Proof.
  revert s2 k. induction s1 as [|s1 IH]; intros s2 k H1 H2 L1 L2; [lia|].
  destruct s2 as [|s2]; [lia|].
  destruct (Nat.eq_dec (S k) N) as [E|E].
  - now rewrite !U_base.
  - rewrite !U_step by assumption.
    destruct (Nat.lt_ge_cases k (length r)) as [Hk|Hk].
    + rewrite (IH s2 (S k)) by lia. reflexivity.
    + rewrite (getitem_out r k Hk). reflexivity.
Qed.

Lemma getitem_raise {A} (a : list A) i e : getitem a i = Raise e -> e = IndexError.
Proof. unfold getitem. destruct (nth_error a i); congruence. Qed.

Lemma U_stack_suffices r kz s k :
  (0 < s)%nat -> (length r < s + k)%nat ->
  U (Some r) kz s k <> Raise RecursionError.
Proof.
  revert k. induction s as [|s IH]; intros k H L; [lia|].
  destruct (Nat.eq_dec (S k) N) as [E|E].
  - rewrite U_base by assumption.
    intros F. apply getitem_raise in F. discriminate.
  - rewrite U_step by assumption.
    destruct (Nat.lt_ge_cases k (length r)) as [Hk|Hk].
    + destruct (getitem_ok r k Hk) as (a & -> & _). simpl.
      specialize (IH (S k) ltac:(lia) ltac:(lia)).
      destruct (U (Some r) kz s (S k)) as [u|e]; simpl; [|congruence].
      destruct (getitem kz (S k)) eqn:E1; simpl.
      * destruct (getitem d (S k)) eqn:E2; simpl; [discriminate|].
        apply getitem_raise in E2. congruence.
      * apply getitem_raise in E1. congruence.
    + rewrite (getitem_out r k Hk). discriminate.
Qed.

(** ** Shapes *)

Lemma length_wavevector Kx : length (wavevector Kx) = length n.
Proof. unfold Bragg.wavevector. now rewrite !length_map. Qed.

Lemma length_times_column (a : list row) (c : list C) :
  length (times_column a c) = Nat.min (length a) (length c).
Proof. apply length_map2. Qed.

Lemma single_interface_bound polarisation kz :
  polarisation = "s"%string \/ polarisation = "p"%string ->
  length kz = length n ->
  exists r_ab, single_interface polarisation kz = Some r_ab /\
               length r_ab = (length n - 1)%nat.
Proof.
  intros [-> | ->] Hkz; unfold Bragg.single_interface; simpl;
    eexists; (split; [reflexivity|]).
  - unfold diff0.
    rewrite !length_map2, length_map, !length_map2,
      !length_upto_last, !length_from1. lia.
  - rewrite !length_map2, !length_times_column, !length_map,
      !length_upto_last, !length_from1. lia.
Qed.

Lemma single_interface_unbound polarisation kz :
  polarisation <> "s"%string -> polarisation <> "p"%string ->
  single_interface polarisation kz = None.
Proof.
  intros Hs Hp. unfold Bragg.single_interface.
  destruct (String.eqb_spec polarisation "s"); [contradiction|].
  destruct (String.eqb_spec polarisation "p"); [contradiction|].
  reflexivity.
Qed.

(** ** The recursion on well-shaped arrays *)

Section WellShaped.

Variable r_ab : list row.
Variable kz : list row.
Hypothesis shape_r_ab : length r_ab = N.
Hypothesis shape_kz : length kz = S N.
Hypothesis shape_d : length d = S N.

Lemma U_returns j k :
  N = (k + S j)%nat ->
  exists u, forall stack, (S j <= stack)%nat -> U (Some r_ab) kz stack k = Ok u.
Proof.
  revert k. induction j as [|j IH]; intros k HN.
  - destruct (getitem_ok r_ab (N - 1)%nat ltac:(lia)) as (u & Hu & _).
    exists u. intros [|stack] Hs; [lia|].
    rewrite U_base by lia. exact Hu.
  - destruct (IH (S k) ltac:(lia)) as (u' & Hu').
    destruct (getitem_ok r_ab k ltac:(lia)) as (a & Ha & _).
    destruct (getitem_ok kz (S k) ltac:(lia)) as (kz_p & Hkz & _).
    destruct (getitem_ok d (S k) ltac:(lia)) as (d_p & Hd & _).
    exists (airy a u' kz_p d_p). intros [|stack] Hs; [lia|].
    rewrite U_step by lia.
    rewrite Ha, (Hu' stack) by lia. simpl. rewrite Hkz, Hd. reflexivity.
Qed.

Lemma U_exhausted stack k :
  (stack + k < N)%nat -> U (Some r_ab) kz stack k = Raise RecursionError.
Proof.
  revert k. induction stack as [|stack IH]; intros k H; [reflexivity|].
  rewrite U_step by lia.
  destruct (getitem_ok r_ab k ltac:(lia)) as (a & -> & _). simpl.
  rewrite IH by lia. reflexivity.
Qed.

Lemma U_at_stack k stack :
  (k < N)%nat -> (N - k <= stack)%nat ->
  U (Some r_ab) kz stack k = U_at r_ab kz k.
Proof.
  intros Hk Hs. unfold U_at.
  destruct (U_returns (N - k - 1) k ltac:(lia)) as (u & Hu).
  rewrite (Hu stack), (Hu (S (length r_ab))) by lia. reflexivity.
Qed.

End WellShaped.

End AnalyticFacts.

Section AnalyticClaims.

Import Bragg.
Local Open Scope exc_scope.
Local Open Scope string_scope.

Variable N : nat.
Variable n : list C.
Variable d : list R.
Variable lbda_list : list R.

Lemma ReflectionCoeff_unfold incidence_angle polarisation n_0 :
  nth_error n 0 = Some n_0 ->
  let kz := wavevector n lbda_list (Cscal (sin incidence_angle) n_0) in
  ReflectionCoeff N n d lbda_list incidence_angle polarisation =
  U N d (single_interface n polarisation kz) kz (S (length n)) 0.
Proof.
  intros H. unfold ReflectionCoeff, getitem. rewrite H. reflexivity.
Qed.

(** On the arrays of the script, [n] and [d] of [N+1] entries, the locals
    [kz] and [r_ab] of [ReflectionCoeff] are bound and have [N+1] and [N]
    rows. *)
Lemma locals_shape incidence_angle polarisation :
  length n = S N ->
  polarisation = "s" \/ polarisation = "p" ->
  exists n_0 r_ab,
    let kz := wavevector n lbda_list (Cscal (sin incidence_angle) n_0) in
    nth_error n 0 = Some n_0 /\
    single_interface n polarisation kz = Some r_ab /\
    length r_ab = N /\ length kz = S N.
Proof.
  intros Hn Hpol.
  destruct n as [|n_0 n'] eqn:En; [discriminate|]. rewrite <- En in *.
  exists n_0.
  destruct (single_interface_bound n polarisation
              (wavevector n lbda_list (Cscal (sin incidence_angle) n_0)) Hpol)
    as (r_ab & Hr & Hlen).
  { apply length_wavevector. }
  exists r_ab. simpl. rewrite length_wavevector.
  repeat split; try assumption.
  - rewrite En. reflexivity.
  - lia.
Qed.

End AnalyticClaims.

(** C1. For every interface index [k < N] the recursive reflection
    coefficient [U(k)] of [ReflectionCoeff] is [r_ab[N-1]] when [k+1 = N],
    and otherwise
    [(r_ab[k] + U(k+1)*exp(2i*kz[k+1]*d[k+1])) /
     (1 + r_ab[k]*U(k+1)*exp(2i*kz[k+1]*d[k+1]))];
    [ReflectionCoeff] returns [U(0)]. *)
Theorem U_recursion (N : nat) (n : list C) (d lbda_list : list R)
  (incidence_angle : R) (polarisation : string) :
  length n = S N -> length d = S N ->
  polarisation = "s"%string \/ polarisation = "p"%string ->
  exists n_0 r_ab,
    let kz := Bragg.wavevector n lbda_list (Cscal (sin incidence_angle) n_0) in
    let U := Bragg.U_at N d r_ab kz in
    nth_error n 0 = Some n_0 /\
    Bragg.single_interface n polarisation kz = Some r_ab /\
    Bragg.ReflectionCoeff N n d lbda_list incidence_angle polarisation = U 0%nat /\
    forall k, (k < N)%nat ->
      exists u_k, U k = Ok u_k /\
        (S k = N -> nth_error r_ab (N - 1) = Some u_k) /\
        (S k <> N ->
         exists a u_next kz_p d_p,
           nth_error r_ab k = Some a /\
           U (S k) = Ok u_next /\
           nth_error kz (S k) = Some kz_p /\
           nth_error d (S k) = Some d_p /\
           u_k = row_div
                   (row_add a (row_mul u_next
                      (row_exp (row_rmul (row_cmul (0, 2)%R kz_p) d_p))))
                   (row_radd 1 (row_mul (row_mul a u_next)
                      (row_exp (row_rmul (row_cmul (0, 2)%R kz_p) d_p))))).
Proof.
  intros Hn Hd Hpol.
  destruct (locals_shape N n lbda_list incidence_angle polarisation Hn Hpol)
    as (n_0 & r_ab & Hn0 & Hr & Lr & Lkz).
  exists n_0, r_ab. cbv zeta.
  set (kz := Bragg.wavevector n lbda_list (Cscal (sin incidence_angle) n_0)) in *.
  split; [exact Hn0|]. split; [exact Hr|]. split.
  - rewrite (ReflectionCoeff_unfold N n d lbda_list incidence_angle polarisation n_0 Hn0).
    fold kz. rewrite Hr. unfold Bragg.U_at.
    apply U_stack_irrelevant; lia.
  - intros k Hk.
    destruct (Nat.eq_dec (S k) N) as [E|E].
    + unfold Bragg.U_at. rewrite U_base by assumption.
      destruct (getitem_ok r_ab (N - 1)%nat ltac:(lia)) as (u & Hu & Hnth).
      exists u. split; [exact Hu|]. split; [intros _; exact Hnth|contradiction].
    + destruct (getitem_ok r_ab k ltac:(lia)) as (a & Ha & Hnth).
      destruct (getitem_ok kz (S k) ltac:(lia)) as (kz_p & Hkz & Hnkz).
      destruct (getitem_ok d (S k) ltac:(lia)) as (d_p & Hdp & Hnd).
      destruct (U_returns N d r_ab kz Lr Lkz Hd (N - S k - 1) (S k) ltac:(lia))
        as (u' & Hu').
      assert (Hnext : Bragg.U_at N d r_ab kz (S k) = Ok u').
      { unfold Bragg.U_at. apply Hu'. lia. }
      exists (Bragg.airy a u' kz_p d_p). split; [|split; [intros; contradiction|]].
      * unfold Bragg.U_at at 1. rewrite U_step by assumption.
        rewrite Ha. simpl. rewrite (Hu' (length r_ab)) by lia. simpl.
        rewrite Hkz, Hdp. reflexivity.
      * intros _. exists a, u', kz_p, d_p. repeat split; assumption.
Qed.

(** [U_recursion] on the arrays of the script, at normal incidence. *)
Lemma U_recursion_witness :
  exists u, Bragg.ReflectionCoeff Script.N Script.n Script.d Script.lbda_list 0 "s"
            = Ok u.
Proof.
  destruct (U_recursion Script.N Script.n Script.d Script.lbda_list 0 "s"
              eq_refl eq_refl (or_introl eq_refl))
    as (n_0 & r_ab & _ & _ & HR & HU).
  destruct (HU 0%nat) as (u & Hu & _).
  - unfold Script.N, Script.periods. lia.
  - exists u. rewrite HR. exact Hu.
Defined.

(** C10. For [k < N] the evaluation of [U(k)] terminates: a call at index
    [k] with [k+1 <> N] calls [U] at index [k+1] and nowhere else, the call
    at index [N-1] is the base case, and the evaluation of [U(k)] needs a
    stack of exactly [N-k] frames, that is [N-1-k] nested recursive calls. *)
Theorem U_terminates (N : nat) (n : list C) (d lbda_list : list R)
  (incidence_angle : R) (polarisation : string) :
  length n = S N -> length d = S N ->
  polarisation = "s"%string \/ polarisation = "p"%string ->
  exists n_0 r_ab,
    let kz := Bragg.wavevector n lbda_list (Cscal (sin incidence_angle) n_0) in
    let U := Bragg.U N d (Some r_ab) kz in
    nth_error n 0 = Some n_0 /\
    Bragg.single_interface n polarisation kz = Some r_ab /\
    forall k, (k < N)%nat ->
      (exists u, forall stack, (N - k <= stack)%nat -> U stack k = Ok u) /\
      (forall stack, (stack < N - k)%nat -> U stack k = Raise RecursionError) /\
      (S k = N -> forall stack, U (S stack) k = getitem r_ab (N - 1)) /\
      (S k <> N -> forall stack,
         U (S stack) k =
         (a <- getitem r_ab k ;;
          u <- U stack (S k) ;;
          kz_p <- getitem kz (S k) ;;
          d_p <- getitem d (S k) ;;
          Ok (Bragg.airy a u kz_p d_p))%exc).
Proof.
  intros Hn Hd Hpol.
  destruct (locals_shape N n lbda_list incidence_angle polarisation Hn Hpol)
    as (n_0 & r_ab & Hn0 & Hr & Lr & Lkz).
  exists n_0, r_ab. cbv zeta.
  split; [exact Hn0|]. split; [exact Hr|].
  intros k Hk. repeat split.
  - destruct (U_returns N d r_ab _ Lr Lkz Hd (N - k - 1) k ltac:(lia)) as (u & Hu).
    exists u. intros stack Hs. apply Hu. lia.
  - intros stack Hs. apply U_exhausted; [assumption | assumption | assumption | lia].
  - intros E stack. now apply U_base.
  - intros E stack. now apply U_step.
Qed.

(** [U_terminates] on the arrays of the script: [U(0)] returns on a stack of
    nine frames and exhausts one of eight. *)
Lemma U_terminates_witness :
  exists r_ab kz,
    (exists u, Bragg.U Script.N Script.d (Some r_ab) kz 9 0 = Ok u) /\
    Bragg.U Script.N Script.d (Some r_ab) kz 8 0 = Raise RecursionError.
Proof.
  destruct (U_terminates Script.N Script.n Script.d Script.lbda_list 0 "s"
              eq_refl eq_refl (or_introl eq_refl))
    as (n_0 & r_ab & _ & _ & HU).
  destruct (HU 0%nat) as ((u & Hu) & Hx & _).
  - unfold Script.N, Script.periods. lia.
  - exists r_ab, (Bragg.wavevector Script.n Script.lbda_list (Cscal (sin 0) n_0)).
    split.
    + exists u. apply Hu. unfold Script.N, Script.periods. simpl. lia.
    + apply Hx. unfold Script.N, Script.periods. simpl. lia.
Defined.

(** C9. For a polarisation other than "s" and "p" neither branch binds
    [r_ab], and [ReflectionCoeff] raises: nothing in it or in the script
    catches the exception, which also ends the computation of the power
    reflectance.  With the non-empty [n] of the script the exception is the
    [NameError] of the unbound [r_ab]. *)
Theorem unsupported_polarisation (N : nat) (n : list C) (d lbda_list : list R)
  (incidence_angle : R) (polarisation : string) :
  polarisation <> "s"%string -> polarisation <> "p"%string ->
  (forall kz, Bragg.single_interface n polarisation kz = None) /\
  exists e,
    Bragg.ReflectionCoeff N n d lbda_list incidence_angle polarisation = Raise e /\
    Bragg.power (Bragg.ReflectionCoeff N n d lbda_list incidence_angle polarisation)
      = Raise e /\
    (n <> [] -> e = NameError).
Proof.
  intros Hs Hp. split.
  - intros kz. now apply single_interface_unbound.
  - destruct n as [|n_0 n'] eqn:En.
    + exists IndexError. repeat split; try reflexivity. congruence.
    + exists NameError.
      assert (H : Bragg.ReflectionCoeff N (n_0 :: n') d lbda_list
                    incidence_angle polarisation = Raise NameError).
      { rewrite (ReflectionCoeff_unfold N (n_0 :: n') d lbda_list
                   incidence_angle polarisation n_0 eq_refl).
        cbv zeta. rewrite single_interface_unbound by assumption.
        apply U_unbound. }
      rewrite H. repeat split; reflexivity.
Qed.

(** [unsupported_polarisation] for the script's arrays and the polarisation
    "sp". *)
Lemma unsupported_polarisation_witness :
  Bragg.ReflectionCoeff Script.N Script.n Script.d Script.lbda_list 0 "sp"
  = Raise NameError.
Proof.
  destruct (unsupported_polarisation Script.N Script.n Script.d
              Script.lbda_list 0 "sp")
    as (_ & e & He & _ & Hne).
  - discriminate.
  - discriminate.
  - rewrite He. f_equal. apply Hne. discriminate.
Defined.

(** ** The single-interface coefficients *)

Lemma Copp_Csub (a b : C) : Copp (Csub a b) = Csub b a.
Proof. unfold Copp, Csub, Re, Im; simpl. f_equal; ring. Qed.

Lemma nth_error_wavevector (n : list C) (lbda_list : list R) (Kx : C) p n_p :
  nth_error n p = Some n_p ->
  nth_error (Bragg.wavevector n lbda_list Kx) p =
  Some (map (fun l => Cscal (2 * PI / l) (Csqrt (Csub (Csqr n_p) (Csqr Kx))))
            lbda_list).
Proof.
  intros H. unfold Bragg.wavevector.
  erewrite map_nth_error; [reflexivity|].
  erewrite map_nth_error; [reflexivity|exact H].
Qed.

Lemma nth_error_times_column (a : list row) (c : list C) p r x :
  nth_error a p = Some r -> nth_error c p = Some x ->
  nth_error (Bragg.times_column a c) p = Some (map (fun y => Cmul y x) r).
Proof.
  unfold row in *. intros Ha Hc. unfold Bragg.times_column.
  rewrite nth_error_map2, Ha, Hc. reflexivity.
Qed.

(** C2. For the polarisation "p", [ReflectionCoeff] computes the coefficient
    of the interface between the media [p] and [p+1], at every angle and at
    every wavelength [lbda_list[j]] of the sweep, as
    [(kz[p]*n[p+1]^2 - kz[p+1]*n[p]^2) / (kz[p]*n[p+1]^2 + kz[p+1]*n[p]^2)]. *)
Theorem fresnel_p (N : nat) (n : list C) (d lbda_list : list R)
  (incidence_angle : R) (p j : nat) (n_0 n_p n_q : C) (l : R) :
  nth_error n 0 = Some n_0 ->
  nth_error n p = Some n_p ->
  nth_error n (S p) = Some n_q ->
  nth_error lbda_list j = Some l ->
  let Kx := Cscal (sin incidence_angle) n_0 in
  let kz := Bragg.wavevector n lbda_list Kx in
  exists r_ab kz_p kz_q,
    Bragg.single_interface n "p" kz = Some r_ab /\
    Bragg.ReflectionCoeff N n d lbda_list incidence_angle "p" =
      Bragg.U N d (Some r_ab) kz (S (length n)) 0 /\
    entry kz p j = Some kz_p /\
    entry kz (S p) j = Some kz_q /\
    entry r_ab p j =
      Some (Cdiv (Csub (Cmul kz_p (Csqr n_q)) (Cmul kz_q (Csqr n_p)))
                 (Cadd (Cmul kz_p (Csqr n_q)) (Cmul kz_q (Csqr n_p)))).
Proof.
  intros H0 Hp Hq Hl Kx kz.
  pose (k := fun m : C => Cscal (2 * PI / l) (Csqrt (Csub (Csqr m) (Csqr Kx)))).
  assert (Hkp := nth_error_wavevector n lbda_list Kx p n_p Hp).
  assert (Hkq := nth_error_wavevector n lbda_list Kx (S p) n_q Hq).
  fold kz in Hkp, Hkq. unfold row in *.
  assert (Lq : (S p < length n)%nat) by (apply nth_error_Some; congruence).
  assert (Lkz : (S p < length kz)%nat)
    by (unfold kz; rewrite length_wavevector; exact Lq).
  exists (map2 row_div
            (map2 row_sub (Bragg.times_column (upto_last kz) (map Csqr (from1 n)))
                          (Bragg.times_column (from1 kz) (map Csqr (upto_last n))))
            (map2 row_add (Bragg.times_column (upto_last kz) (map Csqr (from1 n)))
                          (Bragg.times_column (from1 kz) (map Csqr (upto_last n))))),
    (k n_p), (k n_q).
  split; [reflexivity|]. split.
  { rewrite (ReflectionCoeff_unfold N n d lbda_list incidence_angle "p" n_0 H0).
    reflexivity. }
  split; [|split].
  - unfold entry. rewrite Hkp. apply map_nth_error with (f := fun l => _). exact Hl.
  - unfold entry. rewrite Hkq. apply map_nth_error with (f := fun l => _). exact Hl.
  - unfold entry.
    assert (Ha := nth_error_times_column (upto_last kz) (map Csqr (from1 n)) p _ (Csqr n_q)
                    (eq_trans (nth_error_upto_last kz p Lkz) Hkp)
                    (map_nth_error Csqr p (from1 n)
                       (eq_trans (nth_error_from1 n p) Hq))).
    assert (Hb := nth_error_times_column (from1 kz) (map Csqr (upto_last n)) p _ (Csqr n_p)
                    (eq_trans (nth_error_from1 kz p) Hkq)
                    (map_nth_error Csqr p (upto_last n)
                       (eq_trans (nth_error_upto_last n p Lq) Hp))).
    rewrite !nth_error_map2, Ha, Hb.
    unfold row_div, row_sub, row_add.
    rewrite !nth_error_map2.
    rewrite !nth_error_map, Hl. reflexivity.
Qed.

(** [fresnel_p] on the script's arrays: the first interface, air to TiO2, at
    45 degrees and the first wavelength of the sweep. *)
Lemma fresnel_p_witness :
  exists r_ab c,
    Bragg.single_interface Script.n "p"
      (Bragg.wavevector Script.n Script.lbda_list
         (Cscal (sin (PI / 4)) Script.n_a)) = Some r_ab /\
    entry r_ab 0 0 = Some c.
Proof.
  destruct (fresnel_p Script.N Script.n Script.d Script.lbda_list (PI / 4)
              0 0 Script.n_a Script.n_a Script.n_TiO2
              (1100 + INR 0 * ((2500 - 1100) / INR (200 - 1)))
              eq_refl eq_refl eq_refl eq_refl)
    as (r_ab & kz_p & kz_q & Hr & _ & _ & _ & He).
  exists r_ab. eexists. split; [exact Hr | exact He].
Defined.

(** C3. With one interface only ([N = 1], a front and a back medium) the
    recursion returns, for the polarisation "s", the two-medium Fresnel
    coefficient [(kz0 - kz1)/(kz0 + kz1)] at every angle and at every
    wavelength of the sweep. *)
Theorem single_interface_s (n0 n1 : C) (d lbda_list : list R)
  (incidence_angle : R) :
  let Kx := Cscal (sin incidence_angle) n0 in
  let kz0 := fun l => Cscal (2 * PI / l) (Csqrt (Csub (Csqr n0) (Csqr Kx))) in
  let kz1 := fun l => Cscal (2 * PI / l) (Csqrt (Csub (Csqr n1) (Csqr Kx))) in
  Bragg.ReflectionCoeff 1 [n0; n1] d lbda_list incidence_angle "s" =
  Ok (map (fun l => Cdiv (Csub (kz0 l) (kz1 l)) (Cadd (kz0 l) (kz1 l))) lbda_list).
Proof.
  intros Kx kz0 kz1.
  rewrite (ReflectionCoeff_unfold 1 [n0; n1] d lbda_list incidence_angle "s" n0 eq_refl).
  cbv zeta. fold Kx.
  change (Bragg.wavevector [n0; n1] lbda_list Kx)
    with [map kz0 lbda_list; map kz1 lbda_list].
  change (Bragg.single_interface [n0; n1] "s" [map kz0 lbda_list; map kz1 lbda_list])
    with (Some [row_div (row_opp (row_sub (map kz1 lbda_list) (map kz0 lbda_list)))
                        (row_add (map kz0 lbda_list) (map kz1 lbda_list))]).
  rewrite U_base by reflexivity.
  change (getitem ?r (1 - 1)) with (getitem r 0). unfold getitem; simpl nth_error.
  unfold row_div, row_opp, row_sub, row_add.
  rewrite !map2_map, map_map, map2_map.
  apply f_equal, map_ext. intros l. now rewrite Copp_Csub.
Qed.

(* ================================================================== *)
(** * The profiles of a structure                                      *)
(* ================================================================== *)

Section ProfileFacts.

Import Plotter.
Local Open Scope exc_scope.

Lemma py_sum_concat {A} (lists : list (list A)) (start : list A) :
  py_sum lists start = start ++ concat lists.
Proof.
  unfold py_sum. revert start.
  induction lists as [|l lists IH]; intros start; simpl.
  - now rewrite app_nil_r.
  - rewrite IH. now rewrite app_assoc.
Qed.

Lemma getPermittivityProfile_eq structure lbda unit :
  getPermittivityProfile structure lbda unit =
  (PInf, getTensor (material (frontHalfSpace structure)) lbda unit)
    :: concat (per_layer structure lbda unit)
    ++ [(PInf, getTensor (material (backHalfSpace structure)) lbda unit)].
Proof.
  unfold getPermittivityProfile. rewrite !py_sum_concat. reflexivity.
Qed.

Lemma unzip_combine {A B D} (f : B -> D) (l : list (A * B)) :
  combine (fst (split l)) (map f (snd (split l))) =
  map (fun hv => (fst hv, f (snd hv))) l.
Proof.
  induction l as [|[a b] l IH]; simpl; [reflexivity|].
  destruct (split l) as [h e]; simpl in *. now rewrite IH.
Qed.

Lemma getIndexProfile_eq star structure lbda unit v :
  getIndexProfile star structure lbda unit v =
  Ok (map (fun hv => (fst hv, Csqrt (project star v (snd hv))))
          (getPermittivityProfile structure lbda unit)).
Proof.
  unfold getIndexProfile. rewrite getPermittivityProfile_eq.
  set (l := _ :: _). unfold unzip. subst l. cbv beta iota.
  set (l := _ :: _). unfold bind.
  rewrite <- (unzip_combine (fun eps => Csqrt (project star v eps)) l).
  destruct (split l). reflexivity.
Qed.

End ProfileFacts.

(** C4. [getPermittivityProfile] returns the entry of the front half-space,
    then the profiles of the layers concatenated in order, then the entry of
    the back half-space; both half-space entries have the thickness
    [float('inf')], and the number of entries is the number of finite layers,
    those of the concatenated profiles, plus two. *)
Theorem permittivity_profile_shape (structure : Plotter.Structure) (lbda : R)
  (unit : string) :
  let profile := Plotter.getPermittivityProfile structure lbda unit in
  let finite := concat (Plotter.per_layer structure lbda unit) in
  let front := Plotter.getTensor
                 (Plotter.material (Plotter.frontHalfSpace structure)) lbda unit in
  let back := Plotter.getTensor
                (Plotter.material (Plotter.backHalfSpace structure)) lbda unit in
  length profile = (length finite + 2)%nat /\
  nth_error profile 0 = Some (PInf, front) /\
  nth_error profile (length profile - 1) = Some (PInf, back) /\
  profile = [(PInf, front)] ++ finite ++ [(PInf, back)] /\
  length finite =
    list_sum (map (fun L => length (Plotter.layer_getPermittivityProfile L lbda unit))
                  (Plotter.layers structure)).
Proof.
  cbv zeta. rewrite getPermittivityProfile_eq.
  set (finite := concat _).
  repeat split.
  - simpl. rewrite length_app. simpl. lia.
  - simpl length. rewrite length_app. simpl length.
    replace (S (length finite + 1) - 1)%nat with (S (length finite)) by lia.
    simpl. rewrite nth_error_app2 by lia. now rewrite Nat.sub_diag.
  - subst finite. unfold Plotter.per_layer.
    induction (Plotter.layers structure) as [|L Ls IH]; simpl; [reflexivity|].
    now rewrite length_app, IH.
Qed.

(** ** The square root and the projection on the first axis *)

Section SquareRoot.

Local Open Scope R_scope.

Lemma sqrt_sq_abs (x : R) : sqrt (x * x) = Rabs x.
Proof. apply sqrt_Rsqr_abs. Qed.

Lemma Cabs_Csqr (z : C) : Cabs (Csqr z) = Re z * Re z + Im z * Im z.
Proof.
  destruct z as [x y]. unfold Cabs, Cnorm2, Csqr, Cmul, Re, Im; simpl.
  replace ((x * x - y * y) * (x * x - y * y) + (x * y + y * x) * (x * y + y * x))
    with ((x * x + y * y) * (x * x + y * y)) by ring.
  apply sqrt_square. nra.
Qed.

Lemma Csqrt_Re_nonneg (z : C) : 0 <= Re (Csqrt z).
Proof. unfold Csqrt, Re; simpl. apply sqrt_pos. Qed.

(** The square root undoes the square on the numbers of its range. *)
Lemma Csqrt_Csqr (z : C) : principal z -> Csqrt (Csqr z) = z.
Proof.
  intros Hz. unfold Csqrt. rewrite Cabs_Csqr.
  destruct z as [x y]. unfold principal, Csqr, Cmul, Re, Im in *; simpl in *.
  replace ((x * x + y * y + (x * x - y * y)) / 2) with (x * x) by field.
  replace ((x * x + y * y - (x * x - y * y)) / 2) with (y * y) by field.
  rewrite !sqrt_sq_abs.
  assert (Hx : Rabs x = x) by (apply Rabs_right; lra).
  rewrite Hx. f_equal.
  destruct (Rlt_dec (x * y + y * x) 0) as [Hneg|Hpos].
  - assert (y < 0) by nra. rewrite Rabs_left by assumption. ring.
  - apply Rabs_right. nra.
Qed.

Lemma Cmul_1_l (z : C) : Cmul (RtoC 1) z = z.
Proof. destruct z; unfold Cmul, RtoC, Re, Im; simpl. f_equal; ring. Qed.

Lemma Cmul_1_r (z : C) : Cmul z (RtoC 1) = z.
Proof. destruct z; unfold Cmul, RtoC, Re, Im; simpl. f_equal; ring. Qed.

Lemma Cmul_0_l (z : C) : Cmul (RtoC 0) z = RtoC 0.
Proof. destruct z; unfold Cmul, RtoC, Re, Im; simpl. f_equal; ring. Qed.

Lemma Cmul_0_r (z : C) : Cmul z (RtoC 0) = RtoC 0.
Proof. destruct z; unfold Cmul, RtoC, Re, Im; simpl. f_equal; ring. Qed.

Lemma Cadd_0_r (z : C) : Cadd z (RtoC 0) = z.
Proof. destruct z; unfold Cadd, RtoC, Re, Im; simpl. f_equal; ring. Qed.

(** Along [e_x] both readings of [v.T * eps * v] give the entry [eps[0][0]]. *)
Lemma project_e_x star (eps : Plotter.tensor) :
  Plotter.project star Plotter.e_x eps = Plotter.tget eps 0 0.
Proof.
  destruct eps as [[[[a b] c] r1] r2]. destruct r1 as [[? ?] ?], r2 as [[? ?] ?].
  destruct star; unfold Plotter.project, Plotter.dot3, Plotter.e_x; simpl.
  - now rewrite ?Cmul_1_l, ?Cmul_1_r, ?Cmul_0_l, ?Cmul_0_r, ?Cadd_0_r.
  - now rewrite Cmul_1_l, Cmul_1_r.
Qed.

Lemma project_e_x_scalar star (eps : C) :
  Plotter.project star Plotter.e_x (Plotter.scalar_tensor eps) = eps.
Proof. now rewrite project_e_x. Qed.

End SquareRoot.

Section IndexProfile.

Import Plotter.
Local Open Scope R_scope.

Lemma nth_error_index_profile star structure lbda unit v i h eps :
  nth_error (getPermittivityProfile structure lbda unit) i = Some (h, eps) ->
  exists profile,
    getIndexProfile star structure lbda unit v = Ok profile /\
    nth_error profile i = Some (h, Csqrt (project star v eps)).
Proof.
  intros H. eexists. split; [apply getIndexProfile_eq|].
  now rewrite nth_error_map, H.
Qed.

End IndexProfile.

(** C5, amended. For an entry of the profile whose tensor is that of an
    isotropic material, the square of its index times the identity,
    [getIndexProfile] along the default direction [e_x] returns the
    material's own index, provided the index lies in the range of the square
    root: positive real part, or zero real part and non-negative imaginary
    part.  The value of every entry is the square root, of non-negative real
    part, of [v.T * eps * v]. *)
Theorem isotropic_index (star : Plotter.product) (structure : Plotter.Structure)
  (lbda : R) (unit : string) (i : nat) (index : C) :
  principal index ->
  Plotter.isotropic_entry_gets_index star structure lbda unit i index /\
  (forall v h eps,
     nth_error (Plotter.getPermittivityProfile structure lbda unit) i = Some (h, eps) ->
     exists profile,
       Plotter.getIndexProfile star structure lbda unit v = Ok profile /\
       nth_error profile i = Some (h, Csqrt (Plotter.project star v eps)) /\
       (0 <= Re (Csqrt (Plotter.project star v eps)))%R).
Proof.
  intros Hp. split.
  - intros h H.
    destruct (nth_error_index_profile star structure lbda unit Plotter.e_x i _ _ H)
      as (profile & Hprof & Hi).
    exists profile. split; [exact Hprof|].
    now rewrite Hi, project_e_x_scalar, Csqrt_Csqr.
  - intros v h eps H.
    destruct (nth_error_index_profile star structure lbda unit v i _ _ H)
      as (profile & Hprof & Hi).
    exists profile. repeat split; try assumption. apply Csqrt_Re_nonneg.
Qed.

(** [isotropic_index] for the index of TiO2, in front of and behind no layer. *)
Lemma isotropic_index_witness :
  exists profile,
    Plotter.getIndexProfile Plotter.Broadcast (Plotter.bare Script.n_TiO2)
      1000 "nm" Plotter.e_x = Ok profile /\
    nth_error profile 0 = Some (PInf, Script.n_TiO2).
Proof.
  destruct (isotropic_index Plotter.Broadcast (Plotter.bare Script.n_TiO2)
              1000 "nm" 0 Script.n_TiO2) as (H & _).
  - left. unfold Script.n_TiO2; simpl. lra.
  - apply H. reflexivity.
Defined.

(** C5 as stated fails for an index outside the range of the square root:
    for two half-spaces of index -1 the profile has the value 1. *)
Lemma isotropic_index_counterexample :
  ~ Plotter.isotropic_entry_gets_index Plotter.MatrixProduct
      (Plotter.bare (RtoC (-1))) 1000 "nm" 0 (RtoC (-1)) /\
  ~ Plotter.isotropic_entry_gets_index Plotter.Broadcast
      (Plotter.bare (RtoC (-1))) 1000 "nm" 0 (RtoC (-1)).
Proof.
  split; intros H; destruct (H PInf eq_refl) as (profile & Hprof & Hi);
    rewrite getIndexProfile_eq in Hprof; injection Hprof as <-;
    simpl in Hi; injection Hi as Hre _;
    match type of Hre with
    | ?r = _ => assert (Hpos : (0 <= r)%R) by apply sqrt_pos
    end;
    rewrite Hre in Hpos; lra.
Qed.

(* ================================================================== *)
(** * Drawing a structure                                              *)
(* ================================================================== *)

Section DrawFacts.

Import Plotter.
Local Open Scope R_scope.
Local Open Scope exc_scope.

Lemma split_fst_snd {A B} (l : list (A * B)) :
  split l = (map fst l, map snd l).
Proof.
  induction l as [|[a b] l IH]; simpl; [reflexivity|]. now rewrite IH.
Qed.

Lemma length_indices star structure lbda unit :
  length (indices star structure lbda unit) =
  (length (concat (per_layer structure lbda unit)) + 2)%nat.
Proof.
  unfold indices. rewrite length_map, getPermittivityProfile_eq.
  simpl. rewrite length_app. simpl. lia.
Qed.

Lemma drawStructure_eq star structure lbda unit method margin :
  drawStructure star structure lbda unit method margin =
  let z := depth_axis (thicknesses structure lbda unit) margin in
  let n := indices star structure lbda unit in
  if (method =? "graph")%string then
    ax <- _drawStructureGraph structure z n unit ;; Ok (Some ax)
  else if (method =? "section")%string then
    ax <- _drawStructureSection structure z n unit ;; Ok (Some ax)
  else Ok None.
Proof.
  unfold drawStructure, thicknesses, indices.
  rewrite getIndexProfile_eq, getPermittivityProfile_eq.
  set (perm := _ :: _).
  assert (Hperm : map fst perm =
                  PInf :: map fst (concat (per_layer structure lbda unit)) ++ [PInf]).
  { subst perm. simpl. now rewrite map_app. }
  rewrite <- Hperm.
  unfold bind at 1. unfold unzip.
  destruct (map _ perm) as [|x l] eqn:E; [discriminate|].
  rewrite <- E. unfold bind at 1.
  rewrite split_fst_snd, !map_map. simpl.
  reflexivity.
Qed.

Lemma depth_axis_eq (hm : list xfloat) (margin : xfloat) :
  depth_axis (PInf :: hm ++ [PInf]) margin =
  let z_layers := Fin 0 :: cumsum hm in
  let z_max := last z_layers (Fin 0) in
  let z_margin := if xne0 z_max then xmul margin z_max else Fin 1e-6 in
  (xopp z_margin :: z_layers) ++ [xadd z_max z_margin].
Proof.
  unfold depth_axis, from1, upto_last. simpl tl.
  now rewrite removelast_last.
Qed.

Lemma length_cumsum_from acc h : length (cumsum_from acc h) = length h.
Proof. revert acc; induction h; intros; simpl; auto. Qed.

Lemma length_cumsum h : length (cumsum h) = length h.
Proof. destruct h; simpl; auto using length_cumsum_from. Qed.

Lemma length_depth_axis structure lbda unit margin :
  length (depth_axis (thicknesses structure lbda unit) margin) =
  (length (concat (per_layer structure lbda unit)) + 3)%nat.
Proof.
  unfold thicknesses. rewrite depth_axis_eq. cbv zeta.
  simpl. rewrite length_app, length_cumsum, length_map. simpl. lia.
Qed.

Lemma graph_returns structure z0 z' n unit :
  length (z0 :: z') = S (length n) -> n <> [] ->
  exists levels,
    _drawStructureGraph structure (z0 :: z') n unit =
    Ok {| drawn := Step (z0 :: z') levels;
          xlim := (fold_left xmin z' z0, fold_left xmax z' z0);
          ylim_bottom := Some 1;
          xlabel := z_label unit;
          ylabel := Some "n'"%string |}.
Proof.
  intros Hlen Hn. unfold _drawStructureGraph.
  destruct (getitem_ok n (length n - 1)%nat) as (n_last & -> & _).
  { destruct n; [contradiction|simpl; lia]. }
  cbn [bind].
  assert (E : (length (z0 :: z') =? length (n ++ [n_last]))%nat = true).
  { apply Nat.eqb_eq. rewrite length_app. simpl in *. lia. }
  rewrite E. eexists. reflexivity.
Qed.

Lemma section_returns structure z0 z' n unit :
  length (z0 :: z') = S (length n) ->
  _drawStructureSection structure (z0 :: z') n unit =
  Ok {| drawn := ColorMesh (z0 :: z') (map Re n);
        xlim := (fold_left xmin z' z0, fold_left xmax z' z0);
        ylim_bottom := None;
        xlabel := z_label unit;
        ylabel := None |}.
Proof.
  intros Hlen. unfold _drawStructureSection. cbn [bind amin amax].
  rewrite (proj2 (Nat.eqb_eq _ _) Hlen). reflexivity.
Qed.

(** With the method "graph" or "section" a chart comes back, drawn over the
    depth coordinates and ranging from their minimum to their maximum. *)
Lemma drawStructure_returns star structure lbda unit method margin z0 z' :
  method = "graph"%string \/ method = "section"%string ->
  depth_axis (thicknesses structure lbda unit) margin = z0 :: z' ->
  exists ax,
    drawStructure star structure lbda unit method margin = Ok (Some ax) /\
    abscissas (drawn ax) = z0 :: z' /\
    xlim ax = (fold_left xmin z' z0, fold_left xmax z' z0).
Proof.
  intros Hm Hz. rewrite drawStructure_eq. cbv zeta.
  assert (Hlen : length (z0 :: z') = S (length (indices star structure lbda unit))).
  { rewrite <- Hz, length_depth_axis, length_indices. lia. }
  rewrite Hz.
  destruct Hm as [-> | ->]; simpl String.eqb; cbv iota.
  - destruct (graph_returns structure z0 z' _ unit Hlen) as (levels & ->).
    { intros E. apply (f_equal (@length _)) in E.
      rewrite length_indices in E. simpl in E. lia. }
    eexists. split; [reflexivity|]. split; reflexivity.
  - rewrite (section_returns structure z0 z' _ unit Hlen).
    eexists. split; [reflexivity|]. split; reflexivity.
Qed.

End DrawFacts.

(** C6. With a method other than "graph" and "section", [drawStructure]
    returns [None] for every structure, and raises nothing. *)
Theorem unknown_method_returns_None (star : Plotter.product)
  (structure : Plotter.Structure) (lbda : R) (unit method : string)
  (margin : xfloat) :
  method <> "graph"%string -> method <> "section"%string ->
  Plotter.drawStructure star structure lbda unit method margin = Ok None.
Proof.
  intros Hg Hs. rewrite drawStructure_eq. cbv zeta.
  destruct (String.eqb_spec method "graph"); [contradiction|].
  destruct (String.eqb_spec method "section"); [contradiction|].
  reflexivity.
Qed.

(** [unknown_method_returns_None] for the method "contour". *)
Lemma unknown_method_witness :
  Plotter.drawStructure Plotter.Broadcast
    (Plotter.coated Script.n_a Script.n_TiO2 100 Script.n_g)
    1000 "nm" "contour" Plotter.default_margin = Ok None.
Proof.
  apply unknown_method_returns_None; discriminate.
Defined.

Section Margin.

Import Plotter.
Local Open Scope R_scope.

Lemma last_cumsum_from (a : R) (ds : list R) (def : xfloat) :
  last (Fin a :: cumsum_from (Fin a) (map Fin ds)) def = Fin (a + total_depth ds).
Proof.
  revert a. induction ds as [|x ds IH]; intros a.
  - simpl. f_equal. lra.
  - change (last (Fin a :: cumsum_from (Fin a) (map Fin (x :: ds))) def)
      with (last (Fin (a + x) :: cumsum_from (Fin (a + x)) (map Fin ds)) def).
    rewrite IH. simpl. f_equal. lra.
Qed.

Lemma last_cumsum (ds : list R) :
  last (Fin 0 :: cumsum (map Fin ds)) (Fin 0) = Fin (total_depth ds).
Proof.
  destruct ds as [|x ds]; [reflexivity|].
  change (last (Fin 0 :: cumsum (map Fin (x :: ds))) (Fin 0))
    with (last (Fin x :: cumsum_from (Fin x) (map Fin ds)) (Fin 0)).
  apply last_cumsum_from.
Qed.

(** A stack of depth zero gets the fixed margin. *)
Lemma depth_axis_bare (margin : xfloat) :
  depth_axis [PInf; PInf] margin = [xopp (Fin 1e-6); Fin 0; Fin (0 + 1e-6)].
Proof.
  etransitivity; [exact (depth_axis_eq [] margin)|]. simpl.
  destruct (Req_dec_T 0 0) as [_|H]; [reflexivity|contradiction].
Qed.

(** A stack of finite layers of non-zero depth [D] gets the margin
    [margin * D]. *)
Lemma depth_axis_stack (m : R) (ds : list R) :
  total_depth ds <> 0 ->
  depth_axis (PInf :: map Fin ds ++ [PInf]) (Fin m) =
  [Fin (- (m * total_depth ds))] ++ (Fin 0 :: cumsum (map Fin ds))
    ++ [Fin (total_depth ds + m * total_depth ds)].
Proof.
  intros HD. rewrite depth_axis_eq. cbv zeta.
  rewrite last_cumsum. unfold xne0.
  destruct (Req_dec_T (total_depth ds) 0) as [E|_]; [contradiction|].
  reflexivity.
Qed.

End Margin.

(** C7. For a structure without finite layers [drawStructure] takes the
    fixed margin 1e-6, and the depth axis of the chart ranges over
    [[-1e-6, 1e-6]]; for a stack of finite layers of total depth [D > 0]
    and the default margin fraction, the depth coordinates start at
    [-0.15*D] and end at [D + 0.15*D], the margin 0.15*D on each side of
    the stack, which extends from 0 to [D]. *)
Theorem depth_axis_margin (star : Plotter.product) (structure : Plotter.Structure)
  (lbda : R) (unit method : string) :
  method = "graph"%string \/ method = "section"%string ->
  (concat (Plotter.per_layer structure lbda unit) = [] ->
   forall margin, exists ax,
     Plotter.drawStructure star structure lbda unit method margin = Ok (Some ax) /\
     Plotter.xlim ax = (Fin (- 1e-6), Fin 1e-6)) /\
  (forall ds,
     map fst (concat (Plotter.per_layer structure lbda unit)) = map Fin ds ->
     let D := Plotter.total_depth ds in
     (0 < D)%R ->
     exists ax,
       Plotter.drawStructure star structure lbda unit method Plotter.default_margin
         = Ok (Some ax) /\
       Plotter.abscissas (Plotter.drawn ax) =
         [Fin (- (0.15 * D))] ++ (Fin 0 :: cumsum (map Fin ds))
           ++ [Fin (D + 0.15 * D)] /\
       last (Fin 0 :: cumsum (map Fin ds)) (Fin 0) = Fin D).
Proof.
  intros Hm. split.
  - intros Hbare margin.
    destruct (drawStructure_returns star structure lbda unit method margin
                (xopp (Fin 1e-6)) [Fin 0; Fin (0 + 1e-6)] Hm) as (ax & Hax & _ & Hlim).
    { unfold Plotter.thicknesses. rewrite Hbare. apply depth_axis_bare. }
    exists ax. split; [exact Hax|]. rewrite Hlim. simpl.
    unfold Rmin, Rmax. repeat destruct Rle_dec; try lra; f_equal; f_equal; lra.
  - intros ds Hds D HD.
    assert (Hz := depth_axis_stack 0.15 ds ltac:(fold D; lra)). fold D in Hz.
    destruct (drawStructure_returns star structure lbda unit method
                Plotter.default_margin _ _ Hm
                (eq_trans (f_equal (fun h => Plotter.depth_axis (PInf :: h ++ [PInf])
                                               Plotter.default_margin) Hds) Hz))
      as (ax & Hax & Habs & _).
    exists ax. split; [exact Hax|]. split; [exact Habs|]. apply last_cumsum.
Qed.

(** [depth_axis_margin] for the method "graph": two half-spaces alone, and a
    layer of TiO2 of thickness 100 between air and glass. *)
Lemma depth_axis_margin_witness :
  (exists ax,
     Plotter.drawStructure Plotter.Broadcast (Plotter.bare Script.n_a)
       1000 "nm" "graph" Plotter.default_margin = Ok (Some ax) /\
     Plotter.xlim ax = (Fin (- 1e-6), Fin 1e-6)) /\
  (exists ax,
     Plotter.drawStructure Plotter.Broadcast
       (Plotter.coated Script.n_a Script.n_TiO2 100 Script.n_g)
       1000 "nm" "graph" Plotter.default_margin = Ok (Some ax) /\
     nth_error (Plotter.abscissas (Plotter.drawn ax)) 0
       = Some (Fin (- (0.15 * (100 + 0))))).
Proof.
  split.
  - apply (depth_axis_margin Plotter.Broadcast (Plotter.bare Script.n_a)
             1000 "nm" "graph" (or_introl eq_refl)). reflexivity.
  - destruct (depth_axis_margin Plotter.Broadcast
                (Plotter.coated Script.n_a Script.n_TiO2 100 Script.n_g)
                1000 "nm" "graph" (or_introl eq_refl)) as (_ & H).
    destruct (H [100%R] eq_refl) as (ax & Hax & Habs & _).
    + unfold Plotter.total_depth; simpl. lra.
    + exists ax. split; [exact Hax|]. rewrite Habs. reflexivity.
Defined.

(* ================================================================== *)
(** * The comparison chart                                             *)
(* ================================================================== *)

Section ChartFacts.

Import Script.
Local Open Scope exc_scope.

(** On arrays of the script's shape and at least one interface,
    [ReflectionCoeff] returns an amplitude for "s" and for "p". *)
Lemma ReflectionCoeff_returns (N : nat) (n : list C) (d lbda_list : list R)
  (incidence_angle : R) (polarisation : string) :
  length n = S N -> length d = S N -> (0 < N)%nat ->
  polarisation = "s"%string \/ polarisation = "p"%string ->
  exists u,
    Bragg.ReflectionCoeff N n d lbda_list incidence_angle polarisation = Ok u.
Proof.
  intros Hn Hd HN Hpol.
  destruct (locals_shape N n lbda_list incidence_angle polarisation Hn Hpol)
    as (n_0 & r_ab & Hn0 & Hr & Lr & Lkz).
  rewrite (ReflectionCoeff_unfold N n d lbda_list incidence_angle polarisation n_0 Hn0).
  cbv zeta. rewrite Hr.
  destruct (U_returns N d r_ab _ Lr Lkz Hd (N - 1) 0 ltac:(lia)) as (u & Hu).
  exists u. apply Hu. lia.
Qed.

Lemma power_returns (a : exc row) u :
  a = Ok u -> Bragg.power a = Ok (map (fun z => (Cabs z ^ 2)%R) u).
Proof. intros ->. reflexivity. Qed.

Lemma comparison_chart_eq (N : nat) (n : list C) (d lbda_list : list R)
  (R_ss_0 R_ss R_pp R_th_ss_0 R_th_ss R_th_pp : list R) :
  Bragg.power (Bragg.ReflectionCoeff N n d lbda_list 0 "s") = Ok R_th_ss_0 ->
  Bragg.power (Bragg.ReflectionCoeff N n d lbda_list (PI / 4) "s") = Ok R_th_ss ->
  Bragg.power (Bragg.ReflectionCoeff N n d lbda_list (PI / 4) "p") = Ok R_th_pp ->
  comparison_chart N n d lbda_list R_ss_0 R_ss R_pp =
  Ok {| lines := plot lbda_list [R_ss_0; R_ss; R_pp] fmt_default
                 ++ plot lbda_list [R_th_ss_0; R_th_ss; R_th_pp] fmt_x;
        legend := combine (plot lbda_list [R_ss_0; R_ss; R_pp] fmt_default
                           ++ plot lbda_list [R_th_ss_0; R_th_ss; R_th_pp] fmt_x)
                          (legend1 ++ legend2) |}.
Proof.
  intros H1 H2 H3. unfold comparison_chart. rewrite H1, H2, H3. reflexivity.
Qed.

(** The script's own arrays have the shape that [ReflectionCoeff] expects. *)
Lemma script_chart_eq (R_ss_0 R_ss R_pp : list R) :
  exists R_th_ss_0 R_th_ss R_th_pp,
    Bragg.power (Bragg.ReflectionCoeff N n d lbda_list 0 "s") = Ok R_th_ss_0 /\
    Bragg.power (Bragg.ReflectionCoeff N n d lbda_list (PI / 4) "s") = Ok R_th_ss /\
    Bragg.power (Bragg.ReflectionCoeff N n d lbda_list (PI / 4) "p") = Ok R_th_pp /\
    script_chart R_ss_0 R_ss R_pp =
    Ok {| lines := plot lbda_list [R_ss_0; R_ss; R_pp] fmt_default
                   ++ plot lbda_list [R_th_ss_0; R_th_ss; R_th_pp] fmt_x;
          legend := combine (plot lbda_list [R_ss_0; R_ss; R_pp] fmt_default
                             ++ plot lbda_list [R_th_ss_0; R_th_ss; R_th_pp] fmt_x)
                            (legend1 ++ legend2) |}.
Proof.
  assert (HN : (0 < N)%nat) by (unfold N, periods; lia).
  destruct (ReflectionCoeff_returns N n d lbda_list 0 "s"
              eq_refl eq_refl HN (or_introl eq_refl)) as (a & Ha).
  destruct (ReflectionCoeff_returns N n d lbda_list (PI / 4) "s"
              eq_refl eq_refl HN (or_introl eq_refl)) as (b & Hb).
  destruct (ReflectionCoeff_returns N n d lbda_list (PI / 4) "p"
              eq_refl eq_refl HN (or_intror eq_refl)) as (c & Hc).
  apply power_returns in Ha, Hb, Hc.
  exists (map (fun z => (Cabs z ^ 2)%R) a), (map (fun z => (Cabs z ^ 2)%R) b),
    (map (fun z => (Cabs z ^ 2)%R) c).
  split; [exact Ha|]. split; [exact Hb|]. split; [exact Hc|].
  apply comparison_chart_eq; assumption.
Qed.

End ChartFacts.

(** C8, amended. In the comparison chart of the script the three reflectances
    of the solver, labelled R_ss and R_pp, are drawn as line plots, and the
    three analytic reflectances, labelled R_th_ss and R_th_pp, as marker
    points (the format 'x'); all six are drawn against the wavelengths of the
    sweep on the one chart. *)
Theorem chart_styles (R_ss_0 R_ss R_pp : list R) :
  exists c R_th_ss_0 R_th_ss R_th_pp,
    Script.script_chart R_ss_0 R_ss R_pp = Ok c /\
    Bragg.power (Bragg.ReflectionCoeff Script.N Script.n Script.d
                   Script.lbda_list 0 "s") = Ok R_th_ss_0 /\
    Bragg.power (Bragg.ReflectionCoeff Script.N Script.n Script.d
                   Script.lbda_list (PI / 4) "s") = Ok R_th_ss /\
    Bragg.power (Bragg.ReflectionCoeff Script.N Script.n Script.d
                   Script.lbda_list (PI / 4) "p") = Ok R_th_pp /\
    map (fun e => (Script.ydata (fst e), snd e)) (Script.legend c) =
      [(R_ss_0, "R_ss (0$^\circ$)"); (R_ss, "R_ss (45$^\circ$)");
       (R_pp, "R_pp (45$^\circ$)"); (R_th_ss_0, "R_th_ss (0$^\circ$)");
       (R_th_ss, "R_th_ss (45$^\circ$)"); (R_th_pp, "R_th_pp (45$^\circ$)")]%string /\
    Script.drawn_as c Script.legend1 Script.line_plot /\
    Script.drawn_as c Script.legend2 Script.marker_points /\
    Script.versus c Script.lbda_list.
Proof.
  destruct (script_chart_eq R_ss_0 R_ss R_pp) as (a & b & c & Ha & Hb & Hc & Hchart).
  eexists; exists a, b, c.
  split; [exact Hchart|].
  split; [exact Ha|]. split; [exact Hb|]. split; [exact Hc|].
  split; [reflexivity|].
  split; [|split].
  - intros label [<-|[<-|[<-|[]]]]; eexists;
      (split; [simpl; auto 8 | split; reflexivity]).
  - intros label [<-|[<-|[<-|[]]]]; eexists;
      (split; [simpl; auto 8 | split; [reflexivity | discriminate]]).
  - intros l Hl. simpl in Hl.
    repeat (destruct Hl as [<-|Hl]; [reflexivity|]). contradiction.
Qed.

(** C8 as stated fails: whatever the solver returned, here a reflectance of
    one at every wavelength, the curve labelled R_th_ss (0 degrees) is not
    drawn as a line plot, and the one labelled R_ss (0 degrees) not as marker
    points. *)
Lemma chart_styles_counterexample :
  exists c,
    Script.script_chart (map (fun _ => 1%R) Script.lbda_list)
      (map (fun _ => 1%R) Script.lbda_list)
      (map (fun _ => 1%R) Script.lbda_list) = Ok c /\
    ~ Script.drawn_as c Script.legend2 Script.line_plot /\
    ~ Script.drawn_as c Script.legend1 Script.marker_points.
Proof.
  destruct (script_chart_eq (map (fun _ => 1%R) Script.lbda_list)
              (map (fun _ => 1%R) Script.lbda_list)
              (map (fun _ => 1%R) Script.lbda_list))
    as (a & b & c & _ & _ & _ & Hchart).
  eexists. split; [exact Hchart|]. split.
  - intros H. destruct (H "R_th_ss (0$^\circ$)"%string) as (l & Hin & Hline & _).
    { simpl; auto. }
    cbn [Script.legend Script.plot map app combine Script.legend1 Script.legend2] in Hin.
    repeat (destruct Hin as [E|Hin];
            [inversion E; subst l; discriminate|]).
    contradiction.
  - intros H. destruct (H "R_ss (0$^\circ$)"%string) as (l & Hin & Hline & _).
    { simpl; auto. }
    cbn [Script.legend Script.plot map app combine Script.legend1 Script.legend2] in Hin.
    repeat (destruct Hin as [E|Hin];
            [inversion E; subst l; discriminate|]).
    contradiction.
Qed.

(* ================================================================== *)
(** * Further properties of the analytic reflection coefficient        *)
(* ================================================================== *)

Lemma bind_Ok {A B} (m : exc A) (f : A -> exc B) b :
  bind m f = Ok b -> exists a, m = Ok a /\ f a = Ok b.
Proof. destruct m as [a|e]; simpl; [eauto|discriminate]. Qed.

(** X1. For the polarisation "s", [ReflectionCoeff] computes the coefficient
    of the interface between the media [p] and [p+1], at every angle and at
    every wavelength of the sweep, as [(kz[p] - kz[p+1]) / (kz[p] + kz[p+1])]. *)
Theorem fresnel_s (N : nat) (n : list C) (d lbda_list : list R)
  (incidence_angle : R) (p j : nat) (n_0 n_p n_q : C) (l : R) :
  nth_error n 0 = Some n_0 ->
  nth_error n p = Some n_p ->
  nth_error n (S p) = Some n_q ->
  nth_error lbda_list j = Some l ->
  let Kx := Cscal (sin incidence_angle) n_0 in
  let kz := Bragg.wavevector n lbda_list Kx in
  let kz_p := Cscal (2 * PI / l) (Csqrt (Csub (Csqr n_p) (Csqr Kx))) in
  let kz_q := Cscal (2 * PI / l) (Csqrt (Csub (Csqr n_q) (Csqr Kx))) in
  exists r_ab,
    Bragg.single_interface n "s" kz = Some r_ab /\
    Bragg.ReflectionCoeff N n d lbda_list incidence_angle "s" =
      Bragg.U N d (Some r_ab) kz (S (length n)) 0 /\
    entry r_ab p j = Some (Cdiv (Csub kz_p kz_q) (Cadd kz_p kz_q)).
Proof.
  intros H0 Hp Hq Hl Kx kz kz_p kz_q.
  assert (Hkp := nth_error_wavevector n lbda_list Kx p n_p Hp).
  assert (Hkq := nth_error_wavevector n lbda_list Kx (S p) n_q Hq).
  fold kz in Hkp, Hkq. unfold row in *.
  assert (Lq : (S p < length n)%nat) by (apply nth_error_Some; congruence).
  assert (Lkz : (S p < length kz)%nat)
    by (unfold kz; rewrite length_wavevector; exact Lq).
  exists (map2 row_div (map row_opp (diff0 kz))
                       (map2 row_add (upto_last kz) (from1 kz))).
  split; [reflexivity|]. split.
  { rewrite (ReflectionCoeff_unfold N n d lbda_list incidence_angle "s" n_0 H0).
    reflexivity. }
  unfold entry, diff0.
  rewrite nth_error_map2, nth_error_map, !nth_error_map2. unfold row in *.
  rewrite nth_error_from1, (nth_error_upto_last kz p Lkz), Hkp, Hkq.
  cbn [option_map].
  unfold row_div, row_opp, row_sub, row_add.
  rewrite nth_error_map2, nth_error_map, !nth_error_map2, !nth_error_map, Hl.
  cbn [option_map]. now rewrite Copp_Csub.
Qed.

(** [fresnel_s] on the script's arrays: the last interface, SiO2 to glass, at
    45 degrees and the first wavelength of the sweep. *)
Lemma fresnel_s_witness :
  exists r_ab c,
    Bragg.single_interface Script.n "s"
      (Bragg.wavevector Script.n Script.lbda_list
         (Cscal (sin (PI / 4)) Script.n_a)) = Some r_ab /\
    entry r_ab 8 0 = Some c.
Proof.
  destruct (fresnel_s Script.N Script.n Script.d Script.lbda_list (PI / 4)
              8 0 Script.n_a Script.n_SiO2 Script.n_g
              (1100 + INR 0 * ((2500 - 1100) / INR (200 - 1)))
              eq_refl eq_refl eq_refl eq_refl)
    as (r_ab & Hr & _ & He).
  exists r_ab. eexists. split; [exact Hr | exact He].
Defined.

(** ** One amplitude per wavelength *)

Lemma nth_error_upto_last_Some {A} (a : list A) i x :
  nth_error (upto_last a) i = Some x -> nth_error a i = Some x.
Proof.
  intros H.
  destruct (Nat.lt_ge_cases (S i) (length a)) as [Hi|Hi].
  - now rewrite <- (nth_error_upto_last a i Hi).
  - assert (E : nth_error (upto_last a) i = None)
      by (apply nth_error_None; rewrite length_upto_last; lia).
    congruence.
Qed.

Section Widths.

Variable n : list C.
Variable lbda_list : list R.

Local Abbreviation sweep_wide := (wide (length lbda_list)).

Lemma wavevector_wide Kx : sweep_wide (Bragg.wavevector n lbda_list Kx).
Proof.
  intros p r. unfold Bragg.wavevector.
  rewrite !nth_error_map.
  destruct (nth_error n p); simpl; [|discriminate].
  intros [= <-]. apply length_map.
Qed.

Lemma single_interface_wide polarisation kz r_ab :
  sweep_wide kz ->
  Bragg.single_interface n polarisation kz = Some r_ab ->
  sweep_wide r_ab.
Proof.
  intros Hkz Hr p r. unfold Bragg.single_interface in Hr.
  destruct (polarisation =? "s")%string.
  - injection Hr as <-. unfold diff0.
    rewrite nth_error_map2, nth_error_map, !nth_error_map2. unfold row in *.
    rewrite nth_error_from1.
    destruct (nth_error kz (S p)) as [x|] eqn:Ex; [|discriminate].
    destruct (nth_error (upto_last kz) p) as [y|] eqn:Ey; [|discriminate].
    apply nth_error_upto_last_Some in Ey.
    cbn [option_map]. intros [= <-].
    unfold row_div, row_opp, row_sub, row_add.
    rewrite !length_map2, length_map, length_map2.
    rewrite (Hkz _ _ Ex), (Hkz _ _ Ey). lia.
  - destruct (polarisation =? "p")%string; [|discriminate].
    injection Hr as <-. unfold Bragg.times_column.
    rewrite !nth_error_map2, !nth_error_map. unfold row in *.
    rewrite !nth_error_from1.
    destruct (nth_error (upto_last kz) p) as [y|] eqn:Ey; [|discriminate].
    apply nth_error_upto_last_Some in Ey.
    destruct (nth_error n (S p)); cbn [option_map]; [|discriminate].
    destruct (nth_error kz (S p)) as [x|] eqn:Ex; [|discriminate].
    destruct (nth_error (upto_last n) p); cbn [option_map]; [|discriminate].
    intros [= <-].
    unfold row_div, row_sub, row_add.
    rewrite !length_map2, !length_map.
    rewrite (Hkz _ _ Ex), (Hkz _ _ Ey). lia.
Qed.

Lemma getitem_nth_error {A} (a : list A) i x :
  getitem a i = Ok x -> nth_error a i = Some x.
Proof. unfold getitem. destruct (nth_error a i); congruence. Qed.

Lemma U_wide N d r_ab kz stack k u :
  sweep_wide r_ab -> sweep_wide kz ->
  Bragg.U N d (Some r_ab) kz stack k = Ok u ->
  length u = length lbda_list.
Proof.
  intros Hr Hkz. revert k u.
  induction stack as [|stack IH]; intros k u H; [discriminate|].
  destruct (Nat.eq_dec (S k) N) as [E|E].
  - rewrite U_base in H by assumption.
    apply getitem_nth_error in H. eapply Hr; eassumption.
  - rewrite U_step in H by assumption.
    apply bind_Ok in H as (a & Ha & H).
    apply bind_Ok in H as (u' & Hu' & H).
    apply bind_Ok in H as (kz_p & Hkp & H).
    apply bind_Ok in H as (d_p & _ & H).
    injection H as <-.
    apply getitem_nth_error in Ha, Hkp.
    apply IH in Hu'. apply Hr in Ha. apply Hkz in Hkp.
    unfold Bragg.airy, Bragg.phase, row_div, row_add, row_mul, row_radd,
      row_exp, row_rmul, row_cmul.
    rewrite !length_map2, !length_map, !length_map2, !length_map.
    lia.
Qed.

End Widths.

Lemma ReflectionCoeff_returns_wide (N : nat) (n : list C) (d lbda_list : list R)
  (incidence_angle : R) (polarisation : string) :
  length n = S N -> length d = S N -> (0 < N)%nat ->
  polarisation = "s"%string \/ polarisation = "p"%string ->
  exists u,
    Bragg.ReflectionCoeff N n d lbda_list incidence_angle polarisation = Ok u /\
    length u = length lbda_list.
Proof.
  intros Hn Hd HN Hpol.
  destruct (ReflectionCoeff_returns N n d lbda_list incidence_angle polarisation
              Hn Hd HN Hpol) as (u & Hu).
  exists u. split; [exact Hu|].
  destruct (locals_shape N n lbda_list incidence_angle polarisation Hn Hpol)
    as (n_0 & r_ab & Hn0 & Hr & _ & _).
  rewrite (ReflectionCoeff_unfold N n d lbda_list incidence_angle polarisation
             n_0 Hn0) in Hu.
  cbv zeta in Hu. rewrite Hr in Hu.
  eapply U_wide; [| |exact Hu].
  - eapply single_interface_wide; [apply wavevector_wide|exact Hr].
  - apply wavevector_wide.
Qed.

(** X2. On arrays of the script's shape, [n] and [d] of [N+1] entries with
    [N >= 1], [ReflectionCoeff] returns for "s" and for "p" one amplitude per
    wavelength of the sweep. *)
Theorem ReflectionCoeff_width (N : nat) (n : list C) (d lbda_list : list R)
  (incidence_angle : R) (polarisation : string) :
  length n = S N -> length d = S N -> (0 < N)%nat ->
  polarisation = "s"%string \/ polarisation = "p"%string ->
  exists u,
    Bragg.ReflectionCoeff N n d lbda_list incidence_angle polarisation = Ok u /\
    length u = length lbda_list.
Proof.
  intros Hn Hd HN Hpol.
  destruct (locals_shape N n lbda_list incidence_angle polarisation Hn Hpol)
    as (n_0 & r_ab & Hn0 & Hr & Lr & Lkz).
  rewrite (ReflectionCoeff_unfold N n d lbda_list incidence_angle polarisation
             n_0 Hn0).
  cbv zeta. rewrite Hr.
  destruct (U_returns N d r_ab _ Lr Lkz Hd (N - 1) 0 ltac:(lia)) as (u & Hu).
  specialize (Hu (S (length n)) ltac:(lia)).
  exists u. split; [exact Hu|].
  eapply U_wide; [| |exact Hu].
  - eapply single_interface_wide; [apply wavevector_wide|exact Hr].
  - apply wavevector_wide.
Qed.

(** [ReflectionCoeff_width] for the script: 200 amplitudes at 45 degrees. *)
Lemma ReflectionCoeff_width_witness :
  exists u,
    Bragg.ReflectionCoeff Script.N Script.n Script.d Script.lbda_list
      (PI / 4) "p" = Ok u /\
    length u = 200%nat.
Proof.
  apply (ReflectionCoeff_width Script.N Script.n Script.d Script.lbda_list
           (PI / 4) "p" eq_refl eq_refl).
  - unfold Script.N, Script.periods. lia.
  - right. reflexivity.
Defined.

(** ** What [U] reads of [d] and of [N] *)

(** A call of [U] that returns is a call at an index below [N]. *)
Lemma U_Ok_below N d r_ab kz stack k u :
  Bragg.U N d (Some r_ab) kz stack k = Ok u -> (k < N)%nat.
Proof.
  revert k u. induction stack as [|stack IH]; intros k u H; [discriminate|].
  destruct (Nat.eq_dec (S k) N) as [E|E]; [lia|].
  rewrite U_step in H by assumption.
  apply bind_Ok in H as (a & _ & H).
  apply bind_Ok in H as (u' & Hu' & _).
  apply IH in Hu'. lia.
Qed.

Lemma U_thickness_read N d d' r_ab kz stack k :
  (forall p, (1 <= p < N)%nat -> nth_error d p = nth_error d' p) ->
  Bragg.U N d r_ab kz stack k = Bragg.U N d' r_ab kz stack k.
Proof.
  intros Hd. destruct r_ab as [r|].
  2:{ destruct stack; [reflexivity|]. now rewrite !U_unbound. }
  revert k. induction stack as [|stack IH]; intros k; [reflexivity|].
  destruct (Nat.eq_dec (S k) N) as [E|E].
  - now rewrite !U_base.
  - rewrite !U_step by assumption.
    destruct (getitem r k); simpl; [|reflexivity].
    rewrite <- IH.
    destruct (Bragg.U N d (Some r) kz stack (S k)) as [u|e] eqn:Hu;
      simpl; [|reflexivity].
    apply U_Ok_below in Hu.
    destruct (getitem kz (S k)); simpl; [|reflexivity].
    unfold getitem. rewrite (Hd (S k)) by lia. reflexivity.
Qed.

(** X3. [ReflectionCoeff] reads of the thicknesses [d] the entries
    [d[1]] to [d[N-1]] only: two arrays that agree there give the same
    result, whatever [d[0]], [d[N]] and their lengths are. *)
Theorem thickness_of_half_spaces_unused (N : nat) (n : list C)
  (d d' lbda_list : list R) (incidence_angle : R) (polarisation : string) :
  (forall p, (1 <= p < N)%nat -> nth_error d p = nth_error d' p) ->
  Bragg.ReflectionCoeff N n d lbda_list incidence_angle polarisation =
  Bragg.ReflectionCoeff N n d' lbda_list incidence_angle polarisation.
Proof.
  intros Hd. unfold Bragg.ReflectionCoeff.
  destruct (getitem n 0); cbn [bind]; [|reflexivity].
  now apply U_thickness_read.
Qed.

(** [thickness_of_half_spaces_unused] for the script's [d] and the same
    array with [d[0]] and [d[9]] set to zero. *)
Lemma thickness_of_half_spaces_unused_witness :
  Bragg.ReflectionCoeff Script.N Script.n Script.d Script.lbda_list 0 "s" =
  Bragg.ReflectionCoeff Script.N Script.n
    (set_at 9 0%R (set_at 0 0%R Script.d)) Script.lbda_list 0 "s".
Proof.
  apply thickness_of_half_spaces_unused.
  intros p Hp. unfold Script.N, Script.periods in Hp. simpl in Hp.
  do 9 (destruct p as [|p]; [try lia; reflexivity|]). lia.
Defined.

Lemma U_off_the_end N d r_ab kz stack k :
  N = 0%nat \/ (length r_ab < N)%nat ->
  (k <= length r_ab)%nat -> (length r_ab < stack + k)%nat ->
  Bragg.U N d (Some r_ab) kz stack k = Raise IndexError.
Proof.
  intros HN. revert k. induction stack as [|stack IH]; intros k Hk Hs; [lia|].
  destruct (Nat.eq_dec (S k) N) as [E|E].
  - rewrite U_base by assumption. apply getitem_out. lia.
  - rewrite U_step by assumption.
    destruct (Nat.lt_ge_cases k (length r_ab)) as [Hlt|Hge].
    + destruct (getitem_ok r_ab k Hlt) as (a & -> & _). simpl.
      rewrite IH by lia. reflexivity.
    + rewrite (getitem_out r_ab k Hge). reflexivity.
Qed.

(** X4. When [N] does not fit the index array, [N = 0] or [N] not below the
    number of entries of [n], [ReflectionCoeff] raises an [IndexError] for
    "s" and for "p": the recursion runs off [r_ab] instead of returning. *)
Theorem interfaces_out_of_range (N : nat) (n : list C) (d lbda_list : list R)
  (incidence_angle : R) (polarisation : string) :
  N = 0%nat \/ (length n <= N)%nat ->
  polarisation = "s"%string \/ polarisation = "p"%string ->
  Bragg.ReflectionCoeff N n d lbda_list incidence_angle polarisation
  = Raise IndexError.
Proof.
  intros HN Hpol.
  destruct n as [|n_0 n'] eqn:En; [reflexivity|]. rewrite <- En in *.
  assert (Hn0 : nth_error n 0 = Some n_0) by (rewrite En; reflexivity).
  rewrite (ReflectionCoeff_unfold N n d lbda_list incidence_angle polarisation
             n_0 Hn0). cbv zeta.
  destruct (single_interface_bound n polarisation
              (Bragg.wavevector n lbda_list (Cscal (sin incidence_angle) n_0))
              Hpol (length_wavevector n lbda_list _)) as (r_ab & -> & Hlen).
  assert (0 < length n)%nat by (rewrite En; simpl; lia).
  apply U_off_the_end; lia.
Qed.

(** [interfaces_out_of_range] for the script's ten indices and [N = 10]. *)
Lemma interfaces_out_of_range_witness :
  Bragg.ReflectionCoeff 10 Script.n Script.d Script.lbda_list 0 "s"
  = Raise IndexError.
Proof.
  apply interfaces_out_of_range.
  - right. simpl. lia.
  - left. reflexivity.
Defined.

(** ** The number of calls *)

(** Without its counter [U_calls] is [U]. *)
Lemma U_calls_result N d r_ab kz stack k :
  fst (Bragg.U_calls N d r_ab kz stack k) = Bragg.U N d r_ab kz stack k.
Proof.
  revert k. induction stack as [|stack IH]; intros k; [reflexivity|].
  simpl. destruct (k + 1 =? N)%nat; [reflexivity|].
  destruct (local r_ab) as [r|e]; [|reflexivity]. cbn [bind].
  destruct (getitem r (k + 1 - 1)) as [a|e]; [|reflexivity]. cbn [bind].
  specialize (IH (k + 1)%nat).
  destruct (Bragg.U_calls N d r_ab kz stack (k + 1)) as [res c]. simpl in IH.
  rewrite <- IH.
  destruct res as [u|e]; [|reflexivity]. cbn [bind].
  destruct (getitem kz (k + 1)) as [kz_p|e]; [|reflexivity]. cbn [bind].
  destruct (getitem d (k + 1)) as [d_p|e]; reflexivity.
Qed.

(** X5. [U] calls itself twice at every level, once for the numerator and
    once for the denominator: on arrays of the script's shape the evaluation
    of [U(k)], [k < N], makes [2^(N-k) - 1] calls of [U], and that of
    [ReflectionCoeff], which is [U(0)], makes [2^N - 1]. *)
Theorem U_call_count (N : nat) (n : list C) (d lbda_list : list R)
  (incidence_angle : R) (polarisation : string) :
  length n = S N -> length d = S N ->
  polarisation = "s"%string \/ polarisation = "p"%string ->
  exists n_0 r_ab,
    let kz := Bragg.wavevector n lbda_list (Cscal (sin incidence_angle) n_0) in
    nth_error n 0 = Some n_0 /\
    Bragg.single_interface n polarisation kz = Some r_ab /\
    forall k stack, (k < N)%nat -> (N - k <= stack)%nat ->
      fst (Bragg.U_calls N d (Some r_ab) kz stack k)
        = Bragg.U N d (Some r_ab) kz stack k /\
      snd (Bragg.U_calls N d (Some r_ab) kz stack k) = (2 ^ (N - k) - 1)%nat.
Proof.
  intros Hn Hd Hpol.
  destruct (locals_shape N n lbda_list incidence_angle polarisation Hn Hpol)
    as (n_0 & r_ab & Hn0 & Hr & Lr & Lkz).
  exists n_0, r_ab. cbv zeta.
  split; [exact Hn0|]. split; [exact Hr|].
  set (kz := Bragg.wavevector n lbda_list (Cscal (sin incidence_angle) n_0)) in *.
  intros k stack Hk Hs. split; [apply U_calls_result|].
  remember (N - k - 1)%nat as j eqn:Ej.
  revert k stack Hk Hs Ej. induction j as [|j IH]; intros k stack Hk Hs Ej.
  - destruct stack as [|stack]; [lia|].
    replace (N - k)%nat with 1%nat by lia.
    simpl. replace (k + 1 =? N)%nat with true; [reflexivity|].
    symmetry. apply Nat.eqb_eq. lia.
  - destruct stack as [|stack]; [lia|].
    assert (E : (k + 1 =? N)%nat = false) by (apply Nat.eqb_neq; lia).
    specialize (IH (k + 1)%nat stack ltac:(lia) ltac:(lia) ltac:(lia)).
    destruct (U_returns N d r_ab kz Lr Lkz Hd j (k + 1) ltac:(lia)) as (u & Hu).
    specialize (Hu stack ltac:(lia)).
    rewrite <- U_calls_result in Hu.
    destruct (getitem_ok r_ab k ltac:(lia)) as (a & Ha & _).
    destruct (getitem_ok kz (k + 1)%nat ltac:(lia)) as (kz_p & Hkz & _).
    destruct (getitem_ok d (k + 1)%nat ltac:(lia)) as (d_p & Hdp & _).
    simpl. rewrite E. cbn [local bind].
    replace (k + 1 - 1)%nat with k by lia. rewrite Ha.
    destruct (Bragg.U_calls N d (Some r_ab) kz stack (k + 1)) as [res c].
    simpl in Hu, IH. subst res. cbn [bind]. rewrite Hkz, Hdp. cbn [bind snd].
    rewrite IH.
    replace (N - k)%nat with (S (N - (k + 1))) by lia.
    rewrite Nat.pow_succ_r'.
    assert (0 < 2 ^ (N - (k + 1)))%nat by (apply Nat.neq_0_lt_0, Nat.pow_nonzero; lia).
    lia.
Qed.

(** [U_call_count] for the script: 511 calls for the nine interfaces. *)
Lemma U_call_count_witness :
  exists r_ab kz,
    snd (Bragg.U_calls Script.N Script.d (Some r_ab) kz 10 0) = 511%nat.
Proof.
  destruct (U_call_count Script.N Script.n Script.d Script.lbda_list 0 "s"
              eq_refl eq_refl (or_introl eq_refl))
    as (n_0 & r_ab & _ & _ & H).
  exists r_ab, (Bragg.wavevector Script.n Script.lbda_list (Cscal (sin 0) n_0)).
  destruct (H 0%nat 10%nat) as (_ & Hc).
  - unfold Script.N, Script.periods. lia.
  - unfold Script.N, Script.periods. simpl. lia.
  - rewrite Hc. reflexivity.
Defined.

(** ** Normal incidence *)

Section ComplexAlgebra.

Local Open Scope R_scope.

Lemma Cscal_Cmul (c : R) (z : C) : Cscal c z = Cmul (RtoC c) z.
Proof. destruct z; unfold Cscal, Cmul, RtoC, Re, Im; simpl. f_equal; ring. Qed.

Lemma Cadd_comm (z w : C) : Cadd z w = Cadd w z.
Proof. unfold Cadd. f_equal; ring. Qed.

Lemma Cadd_Copp (z w : C) : Cadd (Copp z) (Copp w) = Copp (Cadd z w).
Proof. unfold Cadd, Copp, Re, Im; simpl. f_equal; ring. Qed.

Lemma Cmul_Copp_l (z w : C) : Cmul (Copp z) w = Copp (Cmul z w).
Proof. unfold Cmul, Copp, Re, Im; simpl. f_equal; ring. Qed.

Lemma Cmul_Copp_Copp (z w : C) : Cmul (Copp z) (Copp w) = Cmul z w.
Proof. unfold Cmul, Copp, Re, Im; simpl. f_equal; ring. Qed.

Lemma Cdiv_Copp_l (z w : C) : Cdiv (Copp z) w = Copp (Cdiv z w).
Proof. unfold Cdiv, Copp, Re, Im, Rdiv; simpl. f_equal; ring. Qed.

Lemma Cnorm2_Copp (z : C) : Cnorm2 (Copp z) = Cnorm2 z.
Proof. unfold Cnorm2, Copp, Re, Im; simpl. ring. Qed.

Lemma Cnorm2_Cmul (z w : C) : Cnorm2 (Cmul z w) = Cnorm2 z * Cnorm2 w.
Proof. unfold Cnorm2, Cmul, Re, Im; simpl. ring. Qed.


Lemma Cnorm2_zero (z : C) : Cnorm2 z = 0 -> z = RtoC 0.
Proof.
  destruct z as [a b]. unfold Cnorm2, RtoC, Re, Im; simpl. intros H.
  assert (a = 0) by nra. assert (b = 0) by nra. now subst.
Qed.

Lemma Cnorm2_nonzero (z : C) : z <> RtoC 0 -> Cnorm2 z <> 0.
Proof. intros Hz H. apply Hz. now apply Cnorm2_zero. Qed.

(** A common non-zero factor cancels in a quotient. *)
Lemma Cdiv_cancel (k z w : C) :
  k <> RtoC 0 -> Cdiv (Cmul k z) (Cmul k w) = Cdiv z w.
Proof.
  intros Hk. apply Cnorm2_nonzero in Hk.
  destruct (Req_dec_T (Cnorm2 w) 0) as [Hw|Hw].
  - apply Cnorm2_zero in Hw. subst w.
    unfold Cdiv, Cmul, RtoC, Re, Im, Rdiv; simpl. f_equal; ring.
  - unfold Cdiv. rewrite Cnorm2_Cmul.
    unfold Cmul, Re, Im; simpl. unfold Cnorm2, Re, Im in *.
    f_equal; field; split; assumption.
Qed.

Lemma Cmul_nonzero (z w : C) : z <> RtoC 0 -> w <> RtoC 0 -> Cmul z w <> RtoC 0.
Proof.
  intros Hz Hw H. apply Cnorm2_nonzero in Hz, Hw.
  apply (f_equal Cnorm2) in H. rewrite Cnorm2_Cmul in H.
  replace (Cnorm2 (RtoC 0)) with 0 in H
    by (unfold Cnorm2, RtoC, Re, Im; simpl; ring).
  destruct (Rmult_integral _ _ H); contradiction.
Qed.

Lemma RtoC_nonzero (c : R) : c <> 0 -> RtoC c <> RtoC 0.
Proof. intros Hc H. apply Hc. now injection H. Qed.

(** With [kz = c*n] on both sides of an interface, the coefficient for "p"
    is the opposite of the one for "s". *)
Lemma fresnel_opposite (c : R) (x y : C) :
  c <> 0 -> x <> RtoC 0 -> y <> RtoC 0 ->
  Cdiv (Csub (Cmul (Cscal c x) (Csqr y)) (Cmul (Cscal c y) (Csqr x)))
       (Cadd (Cmul (Cscal c x) (Csqr y)) (Cmul (Cscal c y) (Csqr x)))
  = Copp (Cdiv (Copp (Csub (Cscal c y) (Cscal c x)))
               (Cadd (Cscal c x) (Cscal c y))).
Proof.
  intros Hc Hx Hy.
  set (K := Cmul (Cmul (RtoC c) x) y).
  assert (HK : K <> RtoC 0)
    by (apply Cmul_nonzero; [apply Cmul_nonzero|]; auto using RtoC_nonzero).
  replace (Csub (Cmul (Cscal c x) (Csqr y)) (Cmul (Cscal c y) (Csqr x)))
    with (Cmul K (Csub y x)).
  2:{ destruct x, y. unfold K, Csub, Cmul, Cscal, Csqr, RtoC, Re, Im; simpl.
      f_equal; ring. }
  replace (Cadd (Cmul (Cscal c x) (Csqr y)) (Cmul (Cscal c y) (Csqr x)))
    with (Cmul K (Cadd x y)).
  2:{ destruct x, y. unfold K, Cadd, Cmul, Cscal, Csqr, RtoC, Re, Im; simpl.
      f_equal; ring. }
  rewrite (Cdiv_cancel K _ _ HK).
  replace (Copp (Csub (Cscal c y) (Cscal c x))) with (Cmul (RtoC c) (Csub x y)).
  2:{ destruct x, y. unfold Copp, Csub, Cmul, Cscal, RtoC, Re, Im; simpl.
      f_equal; ring. }
  replace (Cadd (Cscal c x) (Cscal c y)) with (Cmul (RtoC c) (Cadd x y)).
  2:{ destruct x, y. unfold Cadd, Cmul, Cscal, RtoC, Re, Im; simpl.
      f_equal; ring. }
  rewrite (Cdiv_cancel (RtoC c) _ _ (RtoC_nonzero c Hc)).
  now rewrite <- Cdiv_Copp_l, Copp_Csub.
Qed.

Lemma Cscal_sin_0 (z : C) : Cscal (sin 0) z = RtoC 0.
Proof. rewrite sin_0. unfold Cscal, RtoC. f_equal; ring. Qed.

(** Without a tangential component the root gives back an index of its range. *)
Lemma normal_root (z : C) :
  principal z -> Csqrt (Csub (Csqr z) (Csqr (RtoC 0))) = z.
Proof.
  intros Hz. rewrite <- (Csqrt_Csqr z Hz) at 2. f_equal.
  destruct z. unfold Csub, Csqr, Cmul, RtoC, Re, Im; simpl. f_equal; ring.
Qed.

End ComplexAlgebra.

(** X6. At normal incidence the tangential component [Kx] vanishes, and the
    normal wavevector of a medium whose index lies in the range of the
    square root is [2*pi/lbda] times that index. *)
Theorem normal_incidence_wavevector (n : list C) (lbda_list : list R)
  (p j : nat) (n_0 n_p : C) (l : R) :
  nth_error n 0 = Some n_0 ->
  nth_error n p = Some n_p ->
  principal n_p ->
  nth_error lbda_list j = Some l ->
  Cscal (sin 0) n_0 = RtoC 0 /\
  entry (Bragg.wavevector n lbda_list (Cscal (sin 0) n_0)) p j
  = Some (Cscal (2 * PI / l) n_p).
Proof.
  intros H0 Hp Hprin Hl. split; [apply Cscal_sin_0|].
  unfold entry.
  rewrite (nth_error_wavevector n lbda_list _ p n_p Hp), nth_error_map, Hl.
  cbn [option_map]. now rewrite Cscal_sin_0, normal_root.
Qed.

(** [normal_incidence_wavevector] for the TiO2 of the script at 1100 nm. *)
Lemma normal_incidence_wavevector_witness :
  entry (Bragg.wavevector Script.n Script.lbda_list (Cscal (sin 0) Script.n_a)) 1 0
  = Some (Cscal (2 * PI / (1100 + INR 0 * ((2500 - 1100) / INR (200 - 1))))
            Script.n_TiO2).
Proof.
  apply (normal_incidence_wavevector Script.n Script.lbda_list 1 0
           Script.n_a Script.n_TiO2 _ eq_refl eq_refl).
  - left. unfold Script.n_TiO2; simpl. lra.
  - reflexivity.
Defined.

Section NormalIncidence.

Local Open Scope R_scope.

Variable n : list C.
Variable lbda_list : list R.
Hypothesis principal_n : Forall principal n.
Hypothesis nonzero_n : Forall (fun z => z <> RtoC 0) n.
Hypothesis nonzero_lbda : Forall (fun l => l <> 0) lbda_list.

Let k (m : C) : row := map (fun l => Cscal (2 * PI / l) m) lbda_list.

Lemma wavevector_normal : Bragg.wavevector n lbda_list (RtoC 0) = map k n.
Proof.
  unfold Bragg.wavevector. rewrite map_map.
  apply map_ext_in. intros m Hm. unfold k.
  rewrite normal_root; [reflexivity|].
  now apply (proj1 (Forall_forall _ _) principal_n).
Qed.

Lemma map_upto_last {A B} (f : A -> B) (a : list A) :
  upto_last (map f a) = map f (upto_last a).
Proof.
  unfold upto_last. induction a as [|x [|y a] IH]; simpl in *; try reflexivity.
  now rewrite IH.
Qed.

Lemma map_from1 {A B} (f : A -> B) (a : list A) :
  from1 (map f a) = map f (from1 a).
Proof. destruct a; reflexivity. Qed.

Lemma wavenumber_nonzero l : In l lbda_list -> 2 * PI / l <> 0.
Proof.
  intros Hl. apply (proj1 (Forall_forall _ _) nonzero_lbda) in Hl.
  pose proof PI_RGT_0. unfold Rdiv.
  apply Rmult_integral_contrapositive_currified; [lra|].
  now apply Rinv_neq_0_compat.
Qed.

(** Row by row, the coefficients for "p" are the opposites of those for "s". *)
Lemma single_interface_opposite r_p r_s p :
  Bragg.single_interface n "p" (map k n) = Some r_p ->
  Bragg.single_interface n "s" (map k n) = Some r_s ->
  nth_error r_p p = option_map row_opp (nth_error r_s p).
Proof.
  intros [= <-] [= <-]. unfold diff0, Bragg.times_column.
  rewrite !nth_error_map2, !nth_error_map, !nth_error_map2.
  rewrite !map_upto_last, !map_from1, !nth_error_map.
  destruct (nth_error (upto_last n) p) as [x|] eqn:Ex; cbn [option_map].
  2:{ destruct (nth_error (from1 n) p); reflexivity. }
  destruct (nth_error (from1 n) p) as [y|] eqn:Ey; cbn [option_map];
    [|reflexivity].
  apply nth_error_upto_last_Some, nth_error_In in Ex.
  rewrite nth_error_from1 in Ey. apply nth_error_In in Ey.
  apply (proj1 (Forall_forall _ _) nonzero_n) in Ex, Ey.
  f_equal. unfold row_div, row_sub, row_add, row_opp, k.
  repeat (rewrite map_map || rewrite map2_map).
  apply map_ext_in. intros l Hl.
  apply fresnel_opposite; auto using wavenumber_nonzero.
Qed.

Lemma airy_opposite (a u e : row) :
  row_div (row_add (row_opp a) (row_mul (row_opp u) e))
          (row_radd 1 (row_mul (row_mul (row_opp a) (row_opp u)) e))
  = row_opp (row_div (row_add a (row_mul u e))
                     (row_radd 1 (row_mul (row_mul a u) e))).
Proof.
  unfold row_div, row_add, row_mul, row_radd, row_opp.
  revert u e. induction a as [|x a IH]; intros [|y u] [|z e]; simpl;
    try reflexivity.
  rewrite IH. f_equal.
  now rewrite Cmul_Copp_Copp, Cmul_Copp_l, Cadd_Copp, Cdiv_Copp_l.
Qed.

Lemma U_opposite N d r_p r_s kz stack i :
  (forall p, nth_error r_p p = option_map row_opp (nth_error r_s p)) ->
  Bragg.U N d (Some r_p) kz stack i
  = exc_map row_opp (Bragg.U N d (Some r_s) kz stack i).
Proof.
  intros Hr.
  assert (Hget : forall p, getitem r_p p = exc_map row_opp (getitem r_s p)).
  { intros p. unfold getitem. rewrite Hr.
    destruct (nth_error r_s p); reflexivity. }
  revert i. induction stack as [|stack IH]; intros i; [reflexivity|].
  destruct (Nat.eq_dec (S i) N) as [E|E].
  - rewrite !U_base by assumption. apply Hget.
  - rewrite !U_step by assumption. rewrite Hget, IH.
    destruct (getitem r_s i) as [a|]; simpl; [|reflexivity].
    destruct (Bragg.U N d (Some r_s) kz stack (S i)) as [u|]; simpl;
      [|reflexivity].
    destruct (getitem kz (S i)) as [kz_p|]; simpl; [|reflexivity].
    destruct (getitem d (S i)) as [d_p|]; simpl; [|reflexivity].
    unfold Bragg.airy. now rewrite airy_opposite.
Qed.

End NormalIncidence.

Lemma power_opposite (m : exc row) :
  Bragg.power (exc_map row_opp m) = Bragg.power m.
Proof.
  destruct m as [u|e]; [|reflexivity]. simpl. f_equal.
  unfold row_opp. rewrite map_map. apply map_ext. intros z.
  unfold Cabs. now rewrite Cnorm2_Copp.
Qed.

(** The values of [np.linspace(a, b, num)] lie between [a] and [b]. *)
Lemma linspace_bounds (a b : R) (num : nat) (l : R) :
  (a <= b)%R -> In l (linspace a b num) -> (a <= l <= b)%R.
Proof.
  intros Hab Hl. unfold linspace in Hl.
  apply in_map_iff in Hl as (i & <- & Hi). apply in_seq in Hi.
  destruct (Nat.eq_dec (num - 1) 0) as [E|E].
  - replace i with 0%nat by lia. simpl. lra.
  - assert (HM : (0 < INR (num - 1))%R) by (apply lt_0_INR; lia).
    assert (Hi' : (0 <= INR i <= INR (num - 1))%R)
      by (split; [apply pos_INR | apply le_INR; lia]).
    set (M := INR (num - 1)) in *. set (q := ((b - a) / M)%R).
    assert (Hq : (M * q = b - a)%R) by (unfold q; field; lra).
    assert (0 <= q)%R.
    { unfold q, Rdiv. apply Rmult_le_pos; [lra|].
      left. now apply Rinv_0_lt_compat. }
    nra.
Qed.

(** X7. At normal incidence, for indices in the range of the square root and
    different from zero and for wavelengths different from zero, the
    amplitude that [ReflectionCoeff] returns for "p" is the opposite of the
    one for "s", on every array shape, and the two power reflectances
    coincide. *)
Theorem normal_incidence_polarisations (N : nat) (n : list C)
  (d lbda_list : list R) :
  Forall principal n ->
  Forall (fun z => z <> RtoC 0) n ->
  Forall (fun l => l <> 0%R) lbda_list ->
  Bragg.ReflectionCoeff N n d lbda_list 0 "p"
    = exc_map row_opp (Bragg.ReflectionCoeff N n d lbda_list 0 "s") /\
  Bragg.power (Bragg.ReflectionCoeff N n d lbda_list 0 "p")
    = Bragg.power (Bragg.ReflectionCoeff N n d lbda_list 0 "s").
Proof.
  intros Hprin Hnz Hl.
  assert (H : Bragg.ReflectionCoeff N n d lbda_list 0 "p"
              = exc_map row_opp (Bragg.ReflectionCoeff N n d lbda_list 0 "s")).
  { destruct n as [|n_0 n'] eqn:En; [reflexivity|]. rewrite <- En in *.
    assert (Hn0 : nth_error n 0 = Some n_0) by (rewrite En; reflexivity).
    rewrite !(ReflectionCoeff_unfold N n d lbda_list 0 _ n_0 Hn0). cbv zeta.
    rewrite Cscal_sin_0, (wavevector_normal n lbda_list Hprin).
    apply U_opposite. intros p.
    now apply (single_interface_opposite n lbda_list Hnz Hl). }
  split; [exact H|]. rewrite H. apply power_opposite.
Qed.

(** [normal_incidence_polarisations] for the arrays of the script. *)
Lemma normal_incidence_polarisations_witness :
  Bragg.power
    (Bragg.ReflectionCoeff Script.N Script.n Script.d Script.lbda_list 0 "p")
  = Bragg.power
      (Bragg.ReflectionCoeff Script.N Script.n Script.d Script.lbda_list 0 "s").
Proof.
  apply normal_incidence_polarisations.
  - rewrite script_n. apply Forall_forall. intros z Hz. simpl in Hz.
    repeat (destruct Hz as [<-|Hz]; [left; simpl; lra|]). contradiction.
  - rewrite script_n. apply Forall_forall. intros z Hz. simpl in Hz.
    repeat (destruct Hz as [<-|Hz];
            [intros E; apply (f_equal fst) in E; simpl in E; lra|]).
    contradiction.
  - apply Forall_forall. intros l Hl.
    apply linspace_bounds in Hl; lra.
Defined.


(* ================================================================== *)
(** * Further properties of the plotter                                *)
(* ================================================================== *)

(** X9. [getIndexProfile] raises nothing and keeps the thicknesses: for
    every direction it returns as many entries as [getPermittivityProfile],
    the number of finite layers plus two, with the same thicknesses in the
    same order, the infinite ones of the two half-spaces first and last. *)
Theorem index_profile_thicknesses (star : Plotter.product)
  (structure : Plotter.Structure) (lbda : R) (unit : string) (v : Plotter.vec3) :
  exists profile,
    Plotter.getIndexProfile star structure lbda unit v = Ok profile /\
    map fst profile =
      map fst (Plotter.getPermittivityProfile structure lbda unit) /\
    map fst profile =
      [PInf] ++ map fst (concat (Plotter.per_layer structure lbda unit)) ++ [PInf] /\
    length profile =
      (length (concat (Plotter.per_layer structure lbda unit)) + 2)%nat.
Proof.
  eexists. split; [apply getIndexProfile_eq|].
  rewrite map_map. cbn [fst].
  split; [reflexivity|].
  rewrite length_map, getPermittivityProfile_eq.
  split.
  - simpl. now rewrite map_app.
  - simpl. rewrite length_app. simpl. lia.
Qed.

(** X10. Along the default direction [e_x] the index of an entry is the
    square root of the component [eps[0][0]] of its tensor, under either
    reading of the product: the other components of an anisotropic tensor do
    not enter the profile. *)
Theorem index_profile_first_axis (star : Plotter.product)
  (structure : Plotter.Structure) (lbda : R) (unit : string) :
  Plotter.getIndexProfile star structure lbda unit Plotter.e_x =
  Ok (map (fun hv => (fst hv, Csqrt (Plotter.tget (snd hv) 0 0)))
          (Plotter.getPermittivityProfile structure lbda unit)).
Proof.
  rewrite getIndexProfile_eq. f_equal.
  apply map_ext. intros [h eps]. simpl. now rewrite project_e_x.
Qed.


Section ChartContent.

Import Plotter.
Local Open Scope R_scope.
Local Open Scope exc_scope.

Lemma getitem_last {A} (a : list A) (def : A) :
  a <> [] -> getitem a (length a - 1) = Ok (last a def).
Proof.
  intros Ha.
  assert (H : nth_error a (length a - 1) = Some (last a def)).
  { induction a as [|x [|y a] IH]; [contradiction|reflexivity|].
    specialize (IH ltac:(discriminate)).
    simpl length in *. rewrite Nat.sub_succ, Nat.sub_0_r in *.
    exact IH. }
  unfold getitem. now rewrite H.
Qed.

(** The index that closes the profile is that of the back half-space. *)
Lemma last_index star structure lbda unit def :
  last (indices star structure lbda unit) def =
  Csqrt (project star e_x
           (getTensor (material (backHalfSpace structure)) lbda unit)).
Proof.
  unfold indices. rewrite getPermittivityProfile_eq.
  change (?x :: ?l ++ [?y]) with ((x :: l) ++ [y]).
  rewrite map_app. simpl map at 2. apply last_last.
Qed.

Lemma indices_nonempty star structure lbda unit :
  indices star structure lbda unit <> [].
Proof.
  intros E. apply (f_equal (@length _)) in E.
  rewrite length_indices in E. simpl in E. lia.
Qed.

Lemma graph_content structure z0 z' n unit :
  length (z0 :: z') = S (length n) -> n <> [] ->
  _drawStructureGraph structure (z0 :: z') n unit =
  Ok {| drawn := Step (z0 :: z') (map Re n ++ [Re (last n (RtoC 0))]);
        xlim := (fold_left xmin z' z0, fold_left xmax z' z0);
        ylim_bottom := Some 1;
        xlabel := z_label unit;
        ylabel := Some "n'"%string |}.
Proof.
  intros Hlen Hn. unfold _drawStructureGraph.
  rewrite (getitem_last n (RtoC 0) Hn). cbn [bind].
  assert (E : (length (z0 :: z') =? length (n ++ [last n (RtoC 0)]))%nat = true).
  { apply Nat.eqb_eq. rewrite length_app. simpl in *. lia. }
  rewrite E, map_app. reflexivity.
Qed.

(** The depth coordinates of a stack of finite layers under a finite margin
    fraction: they begin with a finite number. *)
Lemma depth_axis_finite (ds : list R) (m : R) :
  exists mu,
    (mu = if Req_dec_T (total_depth ds) 0 then 1e-6 else m * total_depth ds) /\
    depth_axis (PInf :: map Fin ds ++ [PInf]) (Fin m) =
    Fin (- mu) :: (Fin 0 :: cumsum (map Fin ds)) ++ [Fin (total_depth ds + mu)].
Proof.
  rewrite depth_axis_eq. cbv zeta. rewrite last_cumsum. unfold xne0.
  destruct (Req_dec_T (total_depth ds) 0); eexists; (split; [reflexivity|]);
    reflexivity.
Qed.

End ChartContent.

(** X11. With the method "graph", finite layer thicknesses and a finite
    margin fraction, [drawStructure] returns a step chart: the levels are
    the real parts of the indices of the profile followed by the index of
    the back half-space once more, as many levels as depth coordinates (the
    number of finite layers plus three); the depth axis is labelled
    "z (unit)", the other axis "n'", and its lower limit is 1. *)
Theorem graph_chart (star : Plotter.product) (structure : Plotter.Structure)
  (lbda : R) (unit : string) (m : R) (ds : list R) :
  map fst (concat (Plotter.per_layer structure lbda unit)) = map Fin ds ->
  exists ax z levels,
    Plotter.drawStructure star structure lbda unit "graph" (Fin m) = Ok (Some ax) /\
    Plotter.drawn ax = Plotter.Step z levels /\
    z = Plotter.depth_axis (Plotter.thicknesses structure lbda unit) (Fin m) /\
    levels =
      map Re (Plotter.indices star structure lbda unit)
      ++ [Re (Csqrt (Plotter.project star Plotter.e_x
             (Plotter.getTensor
                (Plotter.material (Plotter.backHalfSpace structure)) lbda unit)))] /\
    length levels = length z /\
    length z = (length ds + 3)%nat /\
    Plotter.xlabel ax = ("z (" ++ unit ++ ")")%string /\
    Plotter.ylabel ax = Some "n'"%string /\
    Plotter.ylim_bottom ax = Some 1%R.
Proof.
  intros Hds.
  assert (Lz := length_depth_axis structure lbda unit (Fin m)).
  assert (Ln := length_indices star structure lbda unit).
  assert (Lds : length (concat (Plotter.per_layer structure lbda unit)) = length ds).
  { apply (f_equal (@length _)) in Hds. now rewrite !length_map in Hds. }
  destruct (Plotter.depth_axis (Plotter.thicknesses structure lbda unit) (Fin m))
    as [|z0 z'] eqn:Ez; [simpl in Lz; lia|].
  rewrite drawStructure_eq. cbv zeta. rewrite Ez. simpl String.eqb. cbv iota.
  rewrite graph_content;
    [| rewrite Lz, Ln; lia | apply indices_nonempty].
  cbn [bind]. do 3 eexists. split; [reflexivity|]. cbn [Plotter.drawn].
  split; [reflexivity|]. split; [reflexivity|].
  split; [now rewrite last_index|].
  split; [rewrite length_app, length_map, Lz, Ln; simpl; lia|].
  split; [rewrite Lz; lia|].
  repeat split.
Qed.

(** [graph_chart] for a layer of TiO2 between air and glass. *)
Lemma graph_chart_witness :
  exists ax,
    Plotter.drawStructure Plotter.Broadcast
      (Plotter.coated Script.n_a Script.n_TiO2 100 Script.n_g)
      1000 "nm" "graph" (Fin 0.15) = Ok (Some ax) /\
    Plotter.xlabel ax = "z (nm)"%string.
Proof.
  destruct (graph_chart Plotter.Broadcast
              (Plotter.coated Script.n_a Script.n_TiO2 100 Script.n_g)
              1000 "nm" 0.15 [100%R] eq_refl)
    as (ax & z & levels & Hax & _ & _ & _ & _ & _ & Hx & _).
  exists ax. split; [exact Hax | exact Hx].
Defined.

(** X12. With the method "section", finite layer thicknesses and a finite
    margin fraction, [drawStructure] returns a colour mesh: one cell per
    entry of the index profile, shaded by the real part of its index,
    between consecutive depth coordinates, one more than cells; the depth
    axis is labelled "z (unit)" and the other axis carries no label. *)
Theorem section_chart (star : Plotter.product) (structure : Plotter.Structure)
  (lbda : R) (unit : string) (m : R) (ds : list R) :
  map fst (concat (Plotter.per_layer structure lbda unit)) = map Fin ds ->
  exists ax z,
    Plotter.drawStructure star structure lbda unit "section" (Fin m) = Ok (Some ax) /\
    Plotter.drawn ax =
      Plotter.ColorMesh z (map Re (Plotter.indices star structure lbda unit)) /\
    z = Plotter.depth_axis (Plotter.thicknesses structure lbda unit) (Fin m) /\
    length z = S (length (Plotter.indices star structure lbda unit)) /\
    length (Plotter.indices star structure lbda unit) = (length ds + 2)%nat /\
    Plotter.xlabel ax = ("z (" ++ unit ++ ")")%string /\
    Plotter.ylabel ax = None.
Proof.
  intros Hds.
  assert (Lz := length_depth_axis structure lbda unit (Fin m)).
  assert (Ln := length_indices star structure lbda unit).
  assert (Lds : length (concat (Plotter.per_layer structure lbda unit)) = length ds).
  { apply (f_equal (@length _)) in Hds. now rewrite !length_map in Hds. }
  destruct (Plotter.depth_axis (Plotter.thicknesses structure lbda unit) (Fin m))
    as [|z0 z'] eqn:Ez; [simpl in Lz; lia|].
  rewrite drawStructure_eq. cbv zeta. rewrite Ez. simpl String.eqb. cbv iota.
  rewrite section_returns by (rewrite Lz, Ln; lia).
  cbn [bind]. do 2 eexists. split; [reflexivity|]. cbn [Plotter.drawn].
  split; [reflexivity|]. split; [reflexivity|].
  split; [rewrite Lz, Ln; lia|].
  split; [rewrite Ln; lia|].
  split; reflexivity.
Qed.

(** [section_chart] for a layer of TiO2 between air and glass. *)
Lemma section_chart_witness :
  exists ax,
    Plotter.drawStructure Plotter.Broadcast
      (Plotter.coated Script.n_a Script.n_TiO2 100 Script.n_g)
      1000 "nm" "section" (Fin 0.15) = Ok (Some ax) /\
    Plotter.ylabel ax = None.
Proof.
  destruct (section_chart Plotter.Broadcast
              (Plotter.coated Script.n_a Script.n_TiO2 100 Script.n_g)
              1000 "nm" 0.15 [100%R] eq_refl)
    as (ax & z & Hax & _ & _ & _ & _ & _ & Hy).
  exists ax. split; [exact Hax | exact Hy].
Defined.

Section DepthCoordinates.

Import Plotter.
Local Open Scope R_scope.

Lemma nth_error_cumsum_from (ds : list R) (a : R) (k : nat) :
  (k <= length ds)%nat ->
  nth_error (Fin a :: cumsum_from (Fin a) (map Fin ds)) k
  = Some (Fin (a + total_depth (firstn k ds))).
Proof.
  revert a k. induction ds as [|x ds IH]; intros a k Hk.
  - replace k with 0%nat by (simpl in Hk; lia). simpl. do 2 f_equal. lra.
  - destruct k as [|k]; [simpl; do 2 f_equal; lra|].
    change (nth_error (Fin a :: cumsum_from (Fin a) (map Fin (x :: ds))) (S k))
      with (nth_error (Fin (a + x) :: cumsum_from (Fin (a + x)) (map Fin ds)) k).
    rewrite IH by (simpl in Hk; lia). simpl. do 2 f_equal. lra.
Qed.

(** The interfaces lie at the running sums of the thicknesses. *)
Lemma nth_error_z_layers (ds : list R) (k : nat) :
  (k <= length ds)%nat ->
  nth_error (Fin 0 :: cumsum (map Fin ds)) k
  = Some (Fin (total_depth (firstn k ds))).
Proof.
  intros Hk. destruct k as [|k]; [reflexivity|].
  destruct ds as [|x ds]; [simpl in Hk; lia|].
  change (nth_error (Fin 0 :: cumsum (map Fin (x :: ds))) (S k))
    with (nth_error (Fin x :: cumsum_from (Fin x) (map Fin ds)) k).
  rewrite nth_error_cumsum_from by (simpl in Hk; lia). reflexivity.
Qed.

Lemma total_depth_nonneg (ds : list R) :
  Forall (fun x => 0 <= x) ds -> 0 <= total_depth ds.
Proof.
  induction 1 as [|x ds Hx _ IH]; unfold total_depth in *; simpl; lra.
Qed.

(** A finite float within the bounds [lo] and [hi]. *)
Let within (lo hi : R) (z : xfloat) : Prop :=
  exists x, z = Fin x /\ lo <= x <= hi.

Lemma cumsum_from_within (ds : list R) (a : R) :
  Forall (fun x => 0 <= x) ds ->
  Forall (within a (a + total_depth ds)) (cumsum_from (Fin a) (map Fin ds)).
Proof.
  intros H. revert a. induction H as [|x ds Hx Hds IH]; intros a; [constructor|].
  pose proof (total_depth_nonneg ds Hds) as Ht.
  simpl. constructor.
  - exists (a + x). unfold total_depth in *; simpl in *. split; [reflexivity|lra].
  - eapply Forall_impl; [|apply IH].
    intros z (y & -> & Hy). exists y. unfold total_depth in *; simpl in *.
    split; [reflexivity|lra].
Qed.

Lemma z_layers_within (ds : list R) :
  Forall (fun x => 0 <= x) ds ->
  Forall (within 0 (total_depth ds)) (Fin 0 :: cumsum (map Fin ds)).
Proof.
  intros H. pose proof (total_depth_nonneg ds H) as Ht.
  constructor; [exists 0; split; [reflexivity|lra]|].
  destruct H as [|x ds Hx Hds]; [constructor|].
  pose proof (total_depth_nonneg ds Hds) as Ht'.
  simpl. constructor.
  - exists x. unfold total_depth in *; simpl in *. split; [reflexivity|lra].
  - eapply Forall_impl; [|apply (cumsum_from_within ds x Hds)].
    intros z (y & -> & Hy). exists y. unfold total_depth in *; simpl in *.
    split; [reflexivity|lra].
Qed.

Lemma fold_xmin_lower (l : list xfloat) (lo hi : R) :
  Forall (within lo hi) l -> fold_left xmin l (Fin lo) = Fin lo.
Proof.
  induction 1 as [|z l (x & -> & Hx) _ IH]; [reflexivity|].
  simpl. rewrite Rmin_left by lra. exact IH.
Qed.

Lemma fold_xmax_upper (l : list xfloat) (lo c hi : R) :
  Forall (within lo hi) l -> c <= hi ->
  fold_left xmax (l ++ [Fin hi]) (Fin c) = Fin hi.
Proof.
  intros H. revert c. induction H as [|z l (x & -> & Hx) _ IH]; intros c Hc.
  - simpl. now rewrite Rmax_right.
  - simpl. apply IH. apply Rmax_lub; lra.
Qed.

Lemma within_weaken (lo hi lo' hi' : R) (l : list xfloat) :
  lo' <= lo -> hi <= hi' -> Forall (within lo hi) l -> Forall (within lo' hi') l.
Proof.
  intros Hlo Hhi. apply Forall_impl.
  intros z (x & -> & Hx). exists x. split; [reflexivity|lra].
Qed.

(** The range of the depth coordinates of non-negative thicknesses between
    two non-negative margins. *)
Lemma depth_range (ds : list R) (mu : R) :
  Forall (fun x => 0 <= x) ds -> 0 <= mu ->
  let z' := (Fin 0 :: cumsum (map Fin ds)) ++ [Fin (total_depth ds + mu)] in
  fold_left xmin z' (Fin (- mu)) = Fin (- mu) /\
  fold_left xmax z' (Fin (- mu)) = Fin (total_depth ds + mu).
Proof.
  intros Hds Hmu z'.
  pose proof (total_depth_nonneg ds Hds) as Ht.
  pose proof (z_layers_within ds Hds) as Hz.
  split.
  - apply (fold_xmin_lower z' (- mu) (total_depth ds + mu)).
    apply Forall_app. split.
    + eapply within_weaken; [| |exact Hz]; lra.
    + constructor; [|constructor]. eexists. split; [reflexivity|lra].
  - apply (fold_xmax_upper _ 0 (- mu) (total_depth ds + mu)); [|lra].
    eapply within_weaken; [| |exact Hz]; lra.
Qed.

End DepthCoordinates.

(** X13. In the chart that [drawStructure] returns for finite layer
    thicknesses and a finite margin fraction, the depth coordinate that
    follows the front margin is 0 and the [k]-th one after it is the sum of
    the first [k] thicknesses: the interfaces are drawn at the cumulative
    depths. *)
Theorem interface_depths (star : Plotter.product) (structure : Plotter.Structure)
  (lbda : R) (unit method : string) (m : R) (ds : list R) :
  method = "graph"%string \/ method = "section"%string ->
  map fst (concat (Plotter.per_layer structure lbda unit)) = map Fin ds ->
  exists ax,
    Plotter.drawStructure star structure lbda unit method (Fin m) = Ok (Some ax) /\
    forall k, (k <= length ds)%nat ->
      nth_error (Plotter.abscissas (Plotter.drawn ax)) (S k)
      = Some (Fin (Plotter.total_depth (firstn k ds))).
Proof.
  intros Hm Hds. set (margin := Fin m).
  assert (Hz : exists z0 zl,
             Plotter.depth_axis (PInf :: map Fin ds ++ [PInf]) margin =
             z0 :: ((Fin 0 :: cumsum (map Fin ds)) ++ [zl])).
  { rewrite depth_axis_eq. cbv zeta. rewrite <- app_comm_cons. eauto. }
  destruct Hz as (z0 & zl & Hz).
  destruct (drawStructure_returns star structure lbda unit method margin
              z0 ((Fin 0 :: cumsum (map Fin ds)) ++ [zl]) Hm
              (eq_trans (f_equal (fun h => Plotter.depth_axis (PInf :: h ++ [PInf])
                                             margin) Hds) Hz))
    as (ax & Hax & Habs & _).
  exists ax. split; [exact Hax|].
  intros k Hk. rewrite Habs. cbn [nth_error].
  rewrite nth_error_app1 by (simpl; rewrite length_cumsum, length_map; lia).
  now apply nth_error_z_layers.
Qed.

(** [interface_depths] for two layers of thicknesses 100 and 50: the second
    interface lies at 150. *)
Lemma interface_depths_witness :
  exists ax,
    Plotter.drawStructure Plotter.Broadcast
      {| Plotter.frontHalfSpace :=
           {| Plotter.material := Plotter.IsotropicMaterial Script.n_a |};
         Plotter.layers :=
           [Plotter.Layer (Plotter.IsotropicMaterial Script.n_TiO2) 100;
            Plotter.Layer (Plotter.IsotropicMaterial Script.n_SiO2) 50];
         Plotter.backHalfSpace :=
           {| Plotter.material := Plotter.IsotropicMaterial Script.n_g |} |}
      1000 "nm" "graph" Plotter.default_margin = Ok (Some ax) /\
    nth_error (Plotter.abscissas (Plotter.drawn ax)) 3
    = Some (Fin (100 + (50 + 0))).
Proof.
  destruct (interface_depths Plotter.Broadcast
              {| Plotter.frontHalfSpace :=
                   {| Plotter.material := Plotter.IsotropicMaterial Script.n_a |};
                 Plotter.layers :=
                   [Plotter.Layer (Plotter.IsotropicMaterial Script.n_TiO2) 100;
                    Plotter.Layer (Plotter.IsotropicMaterial Script.n_SiO2) 50];
                 Plotter.backHalfSpace :=
                   {| Plotter.material := Plotter.IsotropicMaterial Script.n_g |} |}
              1000 "nm" "graph" 0.15%R [100; 50]%R
              (or_introl eq_refl) eq_refl) as (ax & Hax & Hk).
  exists ax. split; [exact Hax|]. apply (Hk 2%nat). simpl. lia.
Defined.

(** X14. For finite, non-negative layer thicknesses of total depth [D > 0]
    and a finite margin fraction [m >= 0], the depth axis of the chart
    ranges exactly from [-m*D] to [D + m*D]. *)
Theorem depth_axis_range (star : Plotter.product) (structure : Plotter.Structure)
  (lbda : R) (unit method : string) (m : R) (ds : list R) :
  method = "graph"%string \/ method = "section"%string ->
  map fst (concat (Plotter.per_layer structure lbda unit)) = map Fin ds ->
  Forall (fun x => (0 <= x)%R) ds ->
  (0 <= m)%R ->
  (0 < Plotter.total_depth ds)%R ->
  exists ax,
    Plotter.drawStructure star structure lbda unit method (Fin m) = Ok (Some ax) /\
    Plotter.xlim ax =
      (Fin (- (m * Plotter.total_depth ds)),
       Fin (Plotter.total_depth ds + m * Plotter.total_depth ds)).
Proof.
  intros Hm Hds Hpos Hmar HD.
  assert (Hz := depth_axis_stack m ds ltac:(lra)).
  destruct (drawStructure_returns star structure lbda unit method (Fin m) _ _ Hm
              (eq_trans (f_equal (fun h => Plotter.depth_axis (PInf :: h ++ [PInf])
                                             (Fin m)) Hds) Hz))
    as (ax & Hax & _ & Hlim).
  exists ax. split; [exact Hax|]. rewrite Hlim.
  destruct (depth_range ds (m * Plotter.total_depth ds) Hpos) as (Hlo & Hhi).
  { apply Rmult_le_pos; lra. }
  cbv zeta in Hlo, Hhi. now rewrite Hlo, Hhi.
Qed.

(** [depth_axis_range] for a layer of thickness 100 and the default margin. *)
Lemma depth_axis_range_witness :
  exists ax,
    Plotter.drawStructure Plotter.Broadcast
      (Plotter.coated Script.n_a Script.n_TiO2 100 Script.n_g)
      1000 "nm" "section" (Fin 0.15) = Ok (Some ax) /\
    Plotter.xlim ax = (Fin (- (0.15 * (100 + 0))), Fin (100 + 0 + 0.15 * (100 + 0))).
Proof.
  apply (depth_axis_range Plotter.Broadcast
           (Plotter.coated Script.n_a Script.n_TiO2 100 Script.n_g)
           1000 "nm" "section" 0.15 [100%R] (or_intror eq_refl) eq_refl).
  - repeat constructor. lra.
  - lra.
  - unfold Plotter.total_depth. simpl. lra.
Defined.

(** X15. The fixed margin 1e-6 answers to a total depth of exactly zero, not
    to the absence of layers: finite layers whose thicknesses sum to zero
    get it as well, and the margin argument, whatever it is, is then
    ignored. *)
Theorem zero_depth_margin (star : Plotter.product) (structure : Plotter.Structure)
  (lbda : R) (unit method : string) (margin : xfloat) (ds : list R) :
  method = "graph"%string \/ method = "section"%string ->
  map fst (concat (Plotter.per_layer structure lbda unit)) = map Fin ds ->
  Plotter.total_depth ds = 0%R ->
  exists ax,
    Plotter.drawStructure star structure lbda unit method margin = Ok (Some ax) /\
    Plotter.abscissas (Plotter.drawn ax) =
      [Fin (- (1e-6))] ++ (Fin 0 :: cumsum (map Fin ds)) ++ [Fin (0 + 1e-6)] /\
    (Forall (fun x => (0 <= x)%R) ds ->
     Plotter.xlim ax = (Fin (- (1e-6)), Fin (0 + 1e-6))).
Proof.
  intros Hm Hds HD.
  assert (Hz : Plotter.depth_axis (PInf :: map Fin ds ++ [PInf]) margin =
               [Fin (- (1e-6))] ++ (Fin 0 :: cumsum (map Fin ds))
                 ++ [Fin (0 + 1e-6)]).
  { rewrite depth_axis_eq. cbv zeta. rewrite last_cumsum, HD. unfold xne0.
    destruct (Req_dec_T 0 0) as [_|H]; [reflexivity|contradiction]. }
  destruct (drawStructure_returns star structure lbda unit method margin _ _ Hm
              (eq_trans (f_equal (fun h => Plotter.depth_axis (PInf :: h ++ [PInf])
                                             margin) Hds) Hz))
    as (ax & Hax & Habs & Hlim).
  exists ax. split; [exact Hax|]. split; [exact Habs|].
  intros Hpos. rewrite Hlim.
  destruct (depth_range ds 1e-6 Hpos ltac:(lra)) as (Hlo & Hhi).
  cbv zeta in Hlo, Hhi. rewrite HD in Hlo, Hhi. now rewrite Hlo, Hhi.
Qed.

(** [zero_depth_margin] for one layer of thickness zero and an infinite
    margin fraction. *)
Lemma zero_depth_margin_witness :
  exists ax,
    Plotter.drawStructure Plotter.Broadcast
      (Plotter.coated Script.n_a Script.n_TiO2 0 Script.n_g)
      1000 "nm" "graph" PInf = Ok (Some ax) /\
    Plotter.abscissas (Plotter.drawn ax) =
      [Fin (- (1e-6)); Fin 0; Fin 0; Fin (0 + 1e-6)].
Proof.
  destruct (zero_depth_margin Plotter.Broadcast
              (Plotter.coated Script.n_a Script.n_TiO2 0 Script.n_g)
              1000 "nm" "graph" PInf [0%R] (or_introl eq_refl) eq_refl)
    as (ax & Hax & Habs & _).
  - unfold Plotter.total_depth. simpl. lra.
  - exists ax. split; [exact Hax | exact Habs].
Defined.

(* ================================================================== *)
(** * Further properties of the script's arrays                        *)
(* ================================================================== *)

Section StridedAssignment.

Context {A : Type}.

Lemma length_set_at (i : nat) (v : A) (a : list A) :
  length (set_at i v a) = length a.
Proof.
  revert i. induction a as [|x a IH]; intros [|i]; simpl; auto.
Qed.

Lemma length_set_every_other (s : nat) (v : A) (a : list A) :
  length (set_every_other s v a) = length a.
Proof.
  revert s. induction a as [|x a IH]; intros [|s]; simpl; auto.
Qed.

Lemma nth_error_set_at_same (i : nat) (v : A) (a : list A) :
  (i < length a)%nat -> nth_error (set_at i v a) i = Some v.
Proof.
  revert i. induction a as [|x a IH]; intros [|i] H; simpl in *;
    try lia; auto. apply IH. lia.
Qed.

Lemma nth_error_set_at_other (i j : nat) (v : A) (a : list A) :
  i <> j -> nth_error (set_at i v a) j = nth_error a j.
Proof.
  revert i j. induction a as [|x a IH]; intros [|i] [|j] H; simpl;
    try reflexivity; try contradiction. apply IH. lia.
Qed.

(** [a[s::2] = v] writes the entries [s], [s+2], ... and leaves the others. *)
Lemma nth_error_set_every_other (s j : nat) (v : A) (a : list A) :
  nth_error (set_every_other s v a) j =
  if ((s <=? j) && Nat.even (j - s) && (j <? length a))%bool
  then Some v else nth_error a j.
Proof.
  revert s j. induction a as [|x a IH]; intros s j.
  - simpl. rewrite andb_false_r. reflexivity.
  - destruct s as [|s], j as [|j]; simpl set_every_other; simpl nth_error.
    + reflexivity.
    + rewrite IH. simpl length.
      change (S j <? S (length a))%nat with (j <? length a)%nat.
      destruct j as [|j]; [reflexivity|].
      simpl. rewrite Nat.sub_0_r. reflexivity.
    + reflexivity.
    + rewrite IH. reflexivity.
Qed.

End StridedAssignment.

Section StackArrays.

Import Script.

Lemma even_double (i : nat) : Nat.even (2 * i) = true.
Proof. rewrite Nat.even_mul. reflexivity. Qed.

Lemma even_double_succ (i : nat) : Nat.even (2 * i + 1) = false.
Proof. rewrite Nat.even_add, even_double. reflexivity. Qed.

Lemma length_index_array p : length (index_array p) = S (interfaces p).
Proof.
  unfold index_array.
  rewrite length_set_at, !length_set_every_other, length_set_at, repeat_length.
  lia.
Qed.

Lemma length_thickness_array p : length (thickness_array p) = S (interfaces p).
Proof.
  unfold thickness_array.
  rewrite !length_set_every_other, repeat_length. lia.
Qed.

Lemma index_array_odd p i :
  (i < p)%nat -> nth_error (index_array p) (2 * i + 1) = Some n_TiO2.
Proof.
  intros Hi. unfold index_array, interfaces.
  rewrite nth_error_set_at_other by lia.
  rewrite nth_error_set_every_other.
  replace ((2 <=? 2 * i + 1) && Nat.even (2 * i + 1 - 2))%bool with false.
  2:{ destruct i as [|i]; [reflexivity|].
      replace (2 * S i + 1 - 2)%nat with (2 * i + 1)%nat by lia.
      now rewrite even_double_succ, andb_false_r. }
  cbn [andb].
  rewrite nth_error_set_every_other.
  replace (2 * i + 1 - 1)%nat with (2 * i)%nat by lia.
  rewrite even_double, length_set_at, repeat_length.
  replace (1 <=? 2 * i + 1)%nat with true by (symmetry; apply Nat.leb_le; lia).
  replace (2 * i + 1 <? 2 * p + 1 + 1)%nat with true
    by (symmetry; apply Nat.ltb_lt; lia).
  reflexivity.
Qed.

Lemma index_array_even p i :
  (i < p)%nat -> nth_error (index_array p) (2 * i + 2) = Some n_SiO2.
Proof.
  intros Hi. unfold index_array, interfaces.
  rewrite nth_error_set_at_other by lia.
  rewrite nth_error_set_every_other.
  replace (2 * i + 2 - 2)%nat with (2 * i)%nat by lia.
  rewrite even_double, !length_set_every_other, length_set_at, repeat_length.
  replace (2 <=? 2 * i + 2)%nat with true by (symmetry; apply Nat.leb_le; lia).
  replace (2 * i + 2 <? 2 * p + 1 + 1)%nat with true
    by (symmetry; apply Nat.ltb_lt; lia).
  reflexivity.
Qed.

Lemma thickness_array_odd p i :
  (i <= p)%nat -> nth_error (thickness_array p) (2 * i + 1) = Some d_TiO2.
Proof.
  intros Hi. unfold thickness_array, interfaces.
  rewrite nth_error_set_every_other.
  replace ((2 <=? 2 * i + 1) && Nat.even (2 * i + 1 - 2))%bool with false.
  2:{ destruct i as [|i]; [reflexivity|].
      replace (2 * S i + 1 - 2)%nat with (2 * i + 1)%nat by lia.
      now rewrite even_double_succ, andb_false_r. }
  cbn [andb].
  rewrite nth_error_set_every_other.
  replace (2 * i + 1 - 1)%nat with (2 * i)%nat by lia.
  rewrite even_double, repeat_length.
  replace (1 <=? 2 * i + 1)%nat with true by (symmetry; apply Nat.leb_le; lia).
  replace (2 * i + 1 <? 2 * p + 1 + 1)%nat with true
    by (symmetry; apply Nat.ltb_lt; lia).
  reflexivity.
Qed.

Lemma thickness_array_even p i :
  (i < p)%nat -> nth_error (thickness_array p) (2 * i + 2) = Some d_SiO2.
Proof.
  intros Hi. unfold thickness_array, interfaces.
  rewrite nth_error_set_every_other.
  replace (2 * i + 2 - 2)%nat with (2 * i)%nat by lia.
  rewrite even_double, !length_set_every_other, repeat_length.
  replace (2 <=? 2 * i + 2)%nat with true by (symmetry; apply Nat.leb_le; lia).
  replace (2 * i + 2 <? 2 * p + 1 + 1)%nat with true
    by (symmetry; apply Nat.ltb_lt; lia).
  reflexivity.
Qed.

End StackArrays.

(** X16. For every number [p] of periods the strided assignments of the
    script build the arrays of the stack air / (TiO2, SiO2) x p / glass:
    [N + 1] entries for [N = 2p + 1] interfaces, the index of air first and
    that of glass last, TiO2 at the odd and SiO2 at the even places between
    them, with the quarter-wave thicknesses at the same places of [d]; the
    script's own arrays are those of four periods, and on the arrays of any
    [p] [ReflectionCoeff] returns one amplitude per wavelength. *)
Theorem stack_arrays (p : nat) (lbda_list : list R) (incidence_angle : R)
  (polarisation : string) :
  polarisation = "s"%string \/ polarisation = "p"%string ->
  let N := Script.interfaces p in
  let n := Script.index_array p in
  let d := Script.thickness_array p in
  length n = S N /\ length d = S N /\
  nth_error n 0 = Some Script.n_a /\
  nth_error n N = Some Script.n_g /\
  (forall i, (i < p)%nat ->
     nth_error n (2 * i + 1) = Some Script.n_TiO2 /\
     nth_error n (2 * i + 2) = Some Script.n_SiO2 /\
     nth_error d (2 * i + 1) = Some Script.d_TiO2 /\
     nth_error d (2 * i + 2) = Some Script.d_SiO2) /\
  Script.n = Script.index_array Script.periods /\
  Script.d = Script.thickness_array Script.periods /\
  exists u,
    Bragg.ReflectionCoeff N n d lbda_list incidence_angle polarisation = Ok u /\
    length u = length lbda_list.
Proof.
  intros Hpol N n d.
  assert (Ln := length_index_array p). assert (Ld := length_thickness_array p).
  split; [exact Ln|]. split; [exact Ld|].
  split.
  { unfold n, Script.index_array.
    rewrite nth_error_set_at_other by (unfold Script.interfaces; lia).
    rewrite !nth_error_set_every_other. cbn [Nat.leb andb].
    apply nth_error_set_at_same. rewrite repeat_length.
    unfold Script.interfaces. lia. }
  split.
  { unfold n, Script.index_array. apply nth_error_set_at_same.
    rewrite !length_set_every_other, length_set_at, repeat_length.
    unfold N. lia. }
  split.
  { intros i Hi. repeat split.
    - now apply index_array_odd.
    - now apply index_array_even.
    - apply thickness_array_odd. lia.
    - now apply thickness_array_even. }
  split; [reflexivity|]. split; [reflexivity|].
  apply ReflectionCoeff_returns_wide; try assumption.
  unfold N, Script.interfaces. lia.
Qed.

(** [stack_arrays] for seven periods, at 45 degrees. *)
Lemma stack_arrays_witness :
  exists u,
    Bragg.ReflectionCoeff 15 (Script.index_array 7) (Script.thickness_array 7)
      Script.lbda_list (PI / 4) "p" = Ok u /\
    length u = 200%nat.
Proof.
  apply (stack_arrays 7 Script.lbda_list (PI / 4) "p" (or_intror eq_refl)).
Defined.

(** X17. For [a <= b], [np.linspace(a, b, num)] gives [num] values between
    [a] and [b], the first equal to [a] and, when there are at least two,
    the last equal to [b]; the sweep of the script, from 1100 to 2500,
    therefore holds no wavelength zero to divide by. *)
Theorem sweep_values (a b : R) (num : nat) :
  (a <= b)%R ->
  length (linspace a b num) = num /\
  (forall l, In l (linspace a b num) -> (a <= l <= b)%R) /\
  ((0 < num)%nat ->
   exists l, nth_error (linspace a b num) 0 = Some l /\ l = a) /\
  ((2 <= num)%nat ->
   exists l, nth_error (linspace a b num) (num - 1) = Some l /\ l = b).
Proof.
  intros Hab. split; [|split; [|split]].
  - unfold linspace. now rewrite length_map, length_seq.
  - intros l. now apply linspace_bounds.
  - intros Hnum. unfold linspace. rewrite nth_error_map.
    destruct num as [|num]; [lia|]. simpl. eexists. split; [reflexivity|]. lra.
  - intros Hnum. unfold linspace. rewrite nth_error_map.
    assert (E : nth_error (seq 0 num) (num - 1) = Some (num - 1)%nat).
    { rewrite nth_error_nth' with (d := 0%nat) by (rewrite length_seq; lia).
      rewrite seq_nth by lia. reflexivity. }
    rewrite E. simpl. eexists. split; [reflexivity|].
    assert (0 < INR (num - 1))%R by (apply lt_0_INR; lia).
    field. lra.
Qed.

(** [sweep_values] for the sweep of the script. *)
Lemma sweep_values_witness :
  length Script.lbda_list = 200%nat /\
  forall l, In l Script.lbda_list -> (1100 <= l <= 2500)%R.
Proof.
  destruct (sweep_values 1100 2500 200) as (Hlen & Hin & _).
  - lra.
  - split; [exact Hlen | exact Hin].
Defined.



(* ================================================================== *)
(** * Media beyond the last interface, and closed forms                *)
(* ================================================================== *)

Section BeyondN.

Lemma U_reads_below N d r r' kz kz' stack k :
  (k < N)%nat ->
  (forall i, (i < N)%nat -> nth_error r i = nth_error r' i) ->
  (forall p, (1 <= p < N)%nat -> nth_error kz p = nth_error kz' p) ->
  Bragg.U N d (Some r) kz stack k = Bragg.U N d (Some r') kz' stack k.
Proof.
  intros Hk Hr Hkz. revert k Hk.
  induction stack as [|stack IH]; intros k Hk; [reflexivity|].
  destruct (Nat.eq_dec (S k) N) as [E|E].
  - rewrite !U_base by assumption. unfold getitem. now rewrite Hr by lia.
  - rewrite !U_step by assumption. rewrite IH by lia.
    unfold getitem. now rewrite Hr, Hkz by lia.
Qed.

Lemma nth_error_firstn_below {A} (m : nat) (a : list A) (i : nat) :
  (i < m)%nat -> nth_error (firstn m a) i = nth_error a i.
Proof.
  intros Hi. rewrite nth_error_firstn.
  now rewrite (proj2 (Nat.ltb_lt i m) Hi).
Qed.

Lemma wavevector_firstn (n : list C) (lbda_list : list R) (Kx : C) (m p : nat) :
  (p < m)%nat ->
  nth_error (Bragg.wavevector (firstn m n) lbda_list Kx) p
  = nth_error (Bragg.wavevector n lbda_list Kx) p.
Proof.
  intros Hp. unfold Bragg.wavevector.
  now rewrite !nth_error_map, nth_error_firstn_below.
Qed.

Lemma single_interface_firstn (n : list C) (lbda_list : list R) (Kx : C)
  (polarisation : string) (N : nat) r r' k :
  (S N <= length n)%nat -> (k < N)%nat ->
  Bragg.single_interface n polarisation (Bragg.wavevector n lbda_list Kx)
    = Some r ->
  Bragg.single_interface (firstn (S N) n) polarisation
    (Bragg.wavevector (firstn (S N) n) lbda_list Kx) = Some r' ->
  nth_error r k = nth_error r' k.
Proof.
  intros HN Hk Hr Hr'.
  set (n' := firstn (S N) n) in *.
  set (kz := Bragg.wavevector n lbda_list Kx) in *.
  set (kz' := Bragg.wavevector n' lbda_list Kx) in *.
  assert (Ln' : length n' = S N) by (apply firstn_length_le; exact HN).
  assert (Lkz : length kz = length n) by apply length_wavevector.
  assert (Lkz' : length kz' = S N)
    by (unfold kz'; rewrite length_wavevector; exact Ln').
  assert (Hn : forall p, (p < S N)%nat -> nth_error n' p = nth_error n p)
    by (intros; now apply nth_error_firstn_below).
  assert (Hkz : forall p, (p < S N)%nat -> nth_error kz' p = nth_error kz p)
    by (intros; now apply wavevector_firstn).
  unfold Bragg.single_interface in Hr, Hr'.
  destruct (polarisation =? "s")%string.
  - injection Hr as <-. injection Hr' as <-. unfold diff0.
    rewrite !nth_error_map2, !nth_error_map, !nth_error_map2. unfold row in *.
    rewrite !nth_error_from1.
    rewrite (nth_error_upto_last kz k), (nth_error_upto_last kz' k) by lia.
    now rewrite !Hkz by lia.
  - destruct (polarisation =? "p")%string; [|discriminate].
    injection Hr as <-. injection Hr' as <-. unfold Bragg.times_column.
    rewrite !nth_error_map2, !nth_error_map. unfold row in *.
    rewrite !nth_error_from1.
    rewrite (nth_error_upto_last kz k), (nth_error_upto_last kz' k),
      (nth_error_upto_last n k), (nth_error_upto_last n' k) by lia.
    now rewrite !Hkz, !Hn by lia.
Qed.

End BeyondN.

(** X19. When [n] holds more media than [N >= 1] interfaces need,
    [ReflectionCoeff] gives the result of the first [N + 1] media alone: the
    entries of [n] beyond [n[N]] do not enter it. *)
Theorem media_beyond_N_ignored (N : nat) (n : list C) (d lbda_list : list R)
  (incidence_angle : R) (polarisation : string) :
  (0 < N)%nat -> (S N <= length n)%nat ->
  Bragg.ReflectionCoeff N n d lbda_list incidence_angle polarisation =
  Bragg.ReflectionCoeff N (firstn (S N) n) d lbda_list incidence_angle
    polarisation.
Proof.
  intros HN Hlen.
  destruct n as [|n_0 n'] eqn:En; [simpl in Hlen; lia|]. rewrite <- En in *.
  assert (Hn0 : nth_error n 0 = Some n_0) by (rewrite En; reflexivity).
  assert (Hn0' : nth_error (firstn (S N) n) 0 = Some n_0)
    by (rewrite nth_error_firstn_below by lia; exact Hn0).
  rewrite (ReflectionCoeff_unfold N n d lbda_list incidence_angle polarisation
             n_0 Hn0).
  rewrite (ReflectionCoeff_unfold N (firstn (S N) n) d lbda_list incidence_angle
             polarisation n_0 Hn0').
  cbv zeta. set (Kx := Cscal (sin incidence_angle) n_0).
  destruct (Bragg.single_interface n polarisation
              (Bragg.wavevector n lbda_list Kx)) as [r|] eqn:Hr;
    destruct (Bragg.single_interface (firstn (S N) n) polarisation
                (Bragg.wavevector (firstn (S N) n) lbda_list Kx)) as [r'|] eqn:Hr'.
  - assert (Lr : length r = (length n - 1)%nat).
    { destruct (single_interface_bound n polarisation
                  (Bragg.wavevector n lbda_list Kx)) as (r0 & H0 & L0).
      - unfold Bragg.single_interface in Hr.
        destruct (String.eqb_spec polarisation "s"); [now left|].
        destruct (String.eqb_spec polarisation "p"); [now right|discriminate].
      - apply length_wavevector.
      - congruence. }
    assert (Lr' : length r' = N).
    { destruct (single_interface_bound (firstn (S N) n) polarisation
                  (Bragg.wavevector (firstn (S N) n) lbda_list Kx))
        as (r0 & H0 & L0).
      - unfold Bragg.single_interface in Hr'.
        destruct (String.eqb_spec polarisation "s"); [now left|].
        destruct (String.eqb_spec polarisation "p"); [now right|discriminate].
      - apply length_wavevector.
      - rewrite firstn_length_le in L0 by exact Hlen.
        assert (r0 = r') by congruence. subst r0. lia. }
    rewrite firstn_length_le by exact Hlen.
    rewrite (U_stack_irrelevant N d r' _ (S (S N)) (S (length n)) 0)
      by lia.
    apply U_reads_below; [exact HN| |].
    + intros i Hi.
      now apply (single_interface_firstn n lbda_list Kx polarisation N).
    + intros p Hp. symmetry. apply wavevector_firstn. lia.
  - unfold Bragg.single_interface in Hr, Hr'.
    destruct (polarisation =? "s")%string; [discriminate|].
    destruct (polarisation =? "p")%string; discriminate.
  - unfold Bragg.single_interface in Hr, Hr'.
    destruct (polarisation =? "s")%string; [discriminate|].
    destruct (polarisation =? "p")%string; discriminate.
  - now rewrite !U_unbound.
Qed.

(** [media_beyond_N_ignored] for the script's ten indices and [N = 3]. *)
Lemma media_beyond_N_ignored_witness :
  Bragg.ReflectionCoeff 3 Script.n Script.d Script.lbda_list 0 "s" =
  Bragg.ReflectionCoeff 3
    [Script.n_a; Script.n_TiO2; Script.n_SiO2; Script.n_TiO2]
    Script.d Script.lbda_list 0 "s".
Proof.
  apply (media_beyond_N_ignored 3 Script.n Script.d Script.lbda_list 0 "s").
  - lia.
  - simpl. lia.
Defined.

(** With one interface only ([N = 1]) the recursion returns, for the
    polarisation "p", the two-medium Fresnel coefficient
    [(kz0*n1^2 - kz1*n0^2) / (kz0*n1^2 + kz1*n0^2)] at every angle and at
    every wavelength of the sweep. *)
Lemma single_interface_p (n0 n1 : C) (d lbda_list : list R)
  (incidence_angle : R) :
  let Kx := Cscal (sin incidence_angle) n0 in
  let kz0 := fun l => Cscal (2 * PI / l) (Csqrt (Csub (Csqr n0) (Csqr Kx))) in
  let kz1 := fun l => Cscal (2 * PI / l) (Csqrt (Csub (Csqr n1) (Csqr Kx))) in
  Bragg.ReflectionCoeff 1 [n0; n1] d lbda_list incidence_angle "p" =
  Ok (map (fun l =>
             Cdiv (Csub (Cmul (kz0 l) (Csqr n1)) (Cmul (kz1 l) (Csqr n0)))
                  (Cadd (Cmul (kz0 l) (Csqr n1)) (Cmul (kz1 l) (Csqr n0))))
          lbda_list).
Proof.
  intros Kx kz0 kz1.
  rewrite (ReflectionCoeff_unfold 1 [n0; n1] d lbda_list incidence_angle "p"
             n0 eq_refl).
  cbv zeta. fold Kx.
  change (Bragg.wavevector [n0; n1] lbda_list Kx)
    with [map kz0 lbda_list; map kz1 lbda_list].
  change (Bragg.single_interface [n0; n1] "p" [map kz0 lbda_list; map kz1 lbda_list])
    with (Some [row_div
                  (row_sub (map (fun y => Cmul y (Csqr n1)) (map kz0 lbda_list))
                           (map (fun y => Cmul y (Csqr n0)) (map kz1 lbda_list)))
                  (row_add (map (fun y => Cmul y (Csqr n1)) (map kz0 lbda_list))
                           (map (fun y => Cmul y (Csqr n0)) (map kz1 lbda_list)))]).
  rewrite U_base by reflexivity.
  change (getitem ?r (1 - 1)) with (getitem r 0). unfold getitem; simpl nth_error.
  unfold row_div, row_sub, row_add.
  repeat (rewrite map_map || rewrite map2_map).
  reflexivity.
Qed.

(** X20. With two interfaces ([N = 2]: a single film of thickness [d[1]]
    between two media) the recursion returns, for the polarisation "s", the
    film formula [(r01 + r12*e) / (1 + r01*r12*e)] with the two-medium
    coefficients [r01] and [r12] and the phase factor
    [e = exp(2i*kz1*d[1])], at every angle and wavelength. *)
Theorem single_film_s (n0 n1 n2 : C) (d lbda_list : list R) (d_1 : R)
  (incidence_angle : R) :
  nth_error d 1 = Some d_1 ->
  let Kx := Cscal (sin incidence_angle) n0 in
  let kz := fun m l => Cscal (2 * PI / l) (Csqrt (Csub (Csqr m) (Csqr Kx))) in
  let r := fun a b l => Cdiv (Csub (kz a l) (kz b l)) (Cadd (kz a l) (kz b l)) in
  let e := fun l => Cexp (Cscal d_1 (Cmul (0, 2)%R (kz n1 l))) in
  Bragg.ReflectionCoeff 2 [n0; n1; n2] d lbda_list incidence_angle "s" =
  Ok (map (fun l =>
             Cdiv (Cadd (r n0 n1 l) (Cmul (r n1 n2 l) (e l)))
                  (Cadd (RtoC 1) (Cmul (Cmul (r n0 n1 l) (r n1 n2 l)) (e l))))
          lbda_list).
Proof.
  intros Hd Kx kz r e.
  rewrite (ReflectionCoeff_unfold 2 [n0; n1; n2] d lbda_list incidence_angle "s"
             n0 eq_refl).
  cbv zeta. fold Kx.
  change (Bragg.wavevector [n0; n1; n2] lbda_list Kx)
    with [map (kz n0) lbda_list; map (kz n1) lbda_list; map (kz n2) lbda_list].
  set (k0 := map (kz n0) lbda_list). set (k1 := map (kz n1) lbda_list).
  set (k2 := map (kz n2) lbda_list).
  change (Bragg.single_interface [n0; n1; n2] "s" [k0; k1; k2])
    with (Some [row_div (row_opp (row_sub k1 k0)) (row_add k0 k1);
                row_div (row_opp (row_sub k2 k1)) (row_add k1 k2)]).
  simpl length.
  rewrite U_step by discriminate.
  rewrite U_base by reflexivity.
  unfold getitem at 1 2 3. simpl nth_error. cbn [bind].
  unfold getitem. rewrite Hd. cbn [bind].
  unfold Bragg.airy, Bragg.phase, row_div, row_opp, row_sub, row_add, row_mul,
    row_radd, row_exp, row_rmul, row_cmul, k0, k1, k2.
  repeat (rewrite map_map || rewrite map2_map).
  apply f_equal, map_ext. intros l.
  unfold r, e. now rewrite !Copp_Csub.
Qed.

(** [single_film_s] for a film of TiO2 on glass, with the thicknesses of the
    script. *)
Lemma single_film_s_witness :
  exists u,
    Bragg.ReflectionCoeff 2 [Script.n_a; Script.n_TiO2; Script.n_g]
      Script.d Script.lbda_list 0 "s" = Ok u.
Proof.
  eexists.
  apply (single_film_s Script.n_a Script.n_TiO2 Script.n_g Script.d
           Script.lbda_list Script.d_TiO2 0 eq_refl).
Defined.
